(** * Figure scripts of the thesis: formal model and checked properties

  The repository holds three stand-alone plotting scripts:
  [pipeline_data_size.py], [cosmological_horizon.py] and
  [cosmological_parameters.py].  This development embeds the parts of
  them that compute something (the byte formatter, the literal tables
  and their running sum, the wavenumber formula, the aspect-ratio
  helper) and the top-level statement structure of each script. *)

From Stdlib Require Import ZArith QArith Qround Qabs Qpower Lia.
From Stdlib Require Import List String Ascii Bool DecimalString.
From Stdlib Require Import Reals Psatz SpecFloat.
Import ListNotations.

(** ** Python values shared by the models *)

Module Py.

Local Open Scope Z_scope.

(** Exceptions that the modelled code can raise. *)
Inductive exn : Type :=
| SyntaxError
| NameError (name : string)
| OverflowError
| OSError.

(** Outcome of an expression: a value or a raised exception. *)
Inductive exc (A : Type) : Type :=
| Ok (a : A)
| Err (e : exn).
Arguments Ok {A} a.
Arguments Err {A} e.

Definition bind {A B : Type} (m : exc A) (k : A -> exc B) : exc B :=
  match m with
  | Ok a => k a
  | Err e => Err e
  end.

(** Outcome of a function call: [return v], falling off the end of the
    body (Python then yields [None]), or an exception. *)
Inductive result (A : Type) : Type :=
| Return (a : A)
| ReturnNone
| Raise (e : exn).
Arguments Return {A} a.
Arguments ReturnNone {A}.
Arguments Raise {A} e.

(** A number is an unbounded [int] or a finite binary64 [float]; a float
    is held by the exact rational it denotes. *)
Inductive number : Type :=
| PyInt (n : Z)
| PyFloat (x : Q).

Definition value (num : number) : Q :=
  match num with
  | PyInt n => inject_Z n
  | PyFloat x => x
  end.

(** [float(n)] for an int: the 53-bit significand is rounded to nearest,
    ties to even; a result of magnitude [2^1024] or more is an
    [OverflowError]. *)
Definition round_significand (a : Z) : Z :=
  let drop := Z.log2 a - 52 in
  if drop <=? 0 then a
  else
    let q := a / 2 ^ drop in
    let r := a mod 2 ^ drop in
    let half := 2 ^ (drop - 1) in
    let m := if (r <? half) || ((r =? half) && Z.even q) then q else q + 1 in
    m * 2 ^ drop.

(** The same rounding read as a quotient by the grid step
    [2^(log2 a - 52)] and a decision to round up. *)
Definition grid_step (a : Z) : Z := 2 ^ (Z.log2 a - 52).

Definition rounded_up (a : Z) : bool :=
  let drop := Z.log2 a - 52 in
  negb ((a mod 2 ^ drop <? 2 ^ (drop - 1))
        || ((a mod 2 ^ drop =? 2 ^ (drop - 1)) && Z.even (a / 2 ^ drop))).

Definition float_of_int (n : Z) : exc Q :=
  let v := round_significand (Z.abs n) in
  if 2 ^ 1024 <=? v then Err OverflowError
  else Ok (inject_Z (Z.sgn n * v)).

Definition to_float (num : number) : exc Q :=
  match num with
  | PyInt n => float_of_int n
  | PyFloat x => Ok x
  end.

(** The numbers that have a float: every float, and the ints below the
    point where rounding reaches [2^1024]. *)
Definition float_range (num : number) : Prop :=
  match num with
  | PyInt n => Z.abs n < 2 ^ 1024 - 2 ^ 970
  | PyFloat _ => True
  end.

(** [num < c] for a float constant [c]: Python compares an int with a
    float exactly, without converting the int. *)
Definition lt (num : number) (c : Q) : bool :=
  match Qcompare (value num) c with
  | Lt => true
  | _ => false
  end.

(** [num / c] (true division by a float constant): an int operand is
    first converted to float.  The quotient by [1024.0 = 2^10] of a
    binary64 value of magnitude at least [1024] is again a binary64
    value, so the division is kept exact. *)
Definition truediv (num : number) (c : Q) : exc number :=
  bind (to_float num) (fun x => Ok (PyFloat (x / c)%Q)).

(** Round to the nearest integer, ties to even. *)
Definition round_half_even (q : Q) : Z :=
  let f := Qfloor q in
  match Qcompare (q - inject_Z f)%Q (1 # 2)%Q with
  | Lt => f
  | Gt => f + 1
  | Eq => if Z.even f then f else f + 1
  end.

Definition decimal (n : Z) : string :=
  NilZero.string_of_uint (N.to_uint (Z.to_N n)).

Fixpoint spaces (n : nat) : string :=
  match n with
  | O => EmptyString
  | S n' => String " "%char (spaces n')
  end.

(** The digits that [format(x, "3.1f")] shows: [|x|] in tenths, the
    exact value rounded ties-to-even. *)
Definition tenths (x : Q) : Z := round_half_even (Qabs x * inject_Z 10)%Q.

(** [format(x, "3.1f")] for a float: sign, integer part, point and one
    digit, right-aligned in at least three columns. *)
Definition fixed_3_1f (x : Q) : string :=
  let t := tenths x in
  let sign := match Qcompare x 0%Q with Lt => "-"%string | _ => EmptyString end in
  let body := (sign ++ decimal (t / 10) ++ "." ++ decimal (t mod 10))%string in
  (spaces (3 - String.length body) ++ body)%string.

(** The same format specification applied to an int converts it to
    float first. *)
Definition format_3_1f (num : number) : exc string :=
  bind (to_float num) (fun x => Ok (fixed_3_1f x)).

End Py.

(** ** pipeline_data_size.py *)

Module PipelineDataSize.

Import Py.
Local Open Scope string_scope.

Definition units : list string := ["bytes"; "KB"; "MB"; "GB"; "TB"; "PB"].

(** The body of the [for unit in [...]] loop of [convert_bytes], run
    over the units that remain. *)
Fixpoint convert_loop (remaining : list string) (num : number)
         (unit_only : bool) : result string :=
  match remaining with
  | [] => ReturnNone
  | unit :: rest =>
      if lt num 1024%Q then
        if unit_only then Return unit
        else
          match format_3_1f num with
          | Ok s => Return (s ++ " " ++ unit)
          | Err e => Raise e
          end
      else
        match truediv num 1024%Q with
        | Ok num' => convert_loop rest num' unit_only
        | Err e => Raise e
        end
  end.

Definition convert_bytes (num : number) (unit_only : bool) : result string :=
  convert_loop units num unit_only.

(** The reading behind the string that [convert_bytes] builds: the
    position of the unit reached and the number that is formatted
    there.  It follows the same loop and stops where it returns. *)
Fixpoint reading_loop (remaining : list string) (index : nat) (num : number)
  : option (nat * number) :=
  match remaining with
  | [] => None
  | _ :: rest =>
      if lt num 1024%Q then Some (index, num)
      else
        match truediv num 1024%Q with
        | Ok num' => reading_loop rest (S index) num'
        | Err _ => None
        end
  end.

Definition reading (num : number) : option (nat * number) :=
  reading_loop units 0 num.

(** The literal tables of the script. *)
Definition palette_ref : list string :=
  ["#ef476f"; "#ffd166"; "#06d6a0"; "#A768FF"].

Definition colors : list string :=
  repeat "#ef476f" 6 ++ repeat "#ffd166" 5 ++ repeat "#06d6a0" 2
    ++ repeat "#A768FF" 2.

Definition newline : string := String (ascii_of_nat 10) EmptyString.

Definition label : list string :=
  [ (* Parent simulation *)
    "Panphasian descriptor" ++ newline ++ "+ cosmology";
    "Panphasia inputs";
    "Glass file";
    "Initial conditions";
    "Snapshots";
    "Halo catalogues";
    (* Object selection and zoom-in simulation set-up *)
    "Object selection";
    "Zoom mask";
    "Zoom initial conditions";
    "Snapshots DMO";
    "Halo catalogues DMO";
    (* Simulation model calibration *)
    "Sub-grid calibration";
    "Fiducial simulation";
    (* Final analysis *)
    "Data products";
    "Plots & insights" ].

(** Sizes in bytes, with the arithmetic of the literals kept. *)
Definition byte_size : list Z :=
  [ 69 + 6 * 4 + 7 * 16;
    44;
    2948 * 1024;
    4339072582 * 1024;
    285253668 * 1024;
    20303636 * 1024;
    30 * 4;
    6604 * 1024;
    747403724 * 1024;
    573958792 * 1024;
    154754024 * 1024;
    (27711872475 + 24796451415 + 19728229448) * 1024 + 9 * 1024 ^ 4;
    45859195689 * 1024;
    437 * 1024;
    47 * 1024 ]%Z.

(** [np.arange(n)]. *)
Definition arange (n : nat) : list nat := seq 0 n.

(** [zip] of four iterables stops at the shortest one. *)
Fixpoint zip4 {A B C D : Type} (la : list A) (lb : list B) (lc : list C)
         (ld : list D) : list (A * B * C * D) :=
  match la, lb, lc, ld with
  | a :: la', b :: lb', c :: lc', d :: ld' =>
      (a, b, c, d) :: zip4 la' lb' lc' ld'
  | _, _, _, _ => []
  end.

(** The plotting loop: the state is [x_cumsum] together with the
    open markers drawn so far, [axes.scatter(x_cumsum, y, ...)], one per
    turn of the loop. *)
Record loop_state : Type := {
  x_cumsum : Z;
  cumulative_markers : list (Z * nat)
}.

Definition loop_body (st : loop_state) (row : nat * Z * string * string)
  : loop_state :=
  let '(y, x, c, l) := row in
  let x_cumsum' := (x_cumsum st + x)%Z in
  {| x_cumsum := x_cumsum';
     cumulative_markers := cumulative_markers st ++ [(x_cumsum', y)] |}.

Definition plot_loop (rows : list (nat * Z * string * string)) : loop_state :=
  fold_left loop_body rows {| x_cumsum := 0; cumulative_markers := [] |}.

Definition sum (l : list Z) : Z := fold_right Z.add 0%Z l.

(** The components of a row of the [zip]. *)
Definition row_y (row : nat * Z * string * string) : nat :=
  let '(y, _, _, _) := row in y.
Definition row_x (row : nat * Z * string * string) : Z :=
  let '(_, x, _, _) := row in x.
Definition row_c (row : nat * Z * string * string) : string :=
  let '(_, _, c, _) := row in c.
Definition row_l (row : nat * Z * string * string) : string :=
  let '(_, _, _, l) := row in l.

End PipelineDataSize.

(** ** The scripts as sequences of top-level statements

  A script is first compiled as a whole (any syntax error stops it
  before its first statement runs), then its statements run in order in
  one global namespace.  Calls into the plotting and cosmology libraries
  are taken to succeed; what is tracked is which names are bound, what
  is printed and which files are written. *)

Module Script.

Import Py.
Local Open Scope string_scope.

Local Unset Elimination Schemes.
(** [reads] lists the global names a statement evaluates, in order;
    [targets] and [binds] the names it binds.  A [for] loop carries the
    number of items of its (literal) iterable; the body of an [if] is
    checked as if the test held; a function body is not run by its
    [def]. *)
Inductive stmt : Type :=
| Import (binds : list string)
| Assign (targets reads : list string)
| Expr (reads : list string)
| ExprSrc (src : string) (reads : list string)
    (* an expression statement kept with its source text *)
| FunctionDef (name : string) (reads : list string)
| StyleUse (sheet : string)          (* plt.style.use(sheet) *)
| Print (message : string)           (* print(message) *)
| SaveFig (filename : string)        (* plt.savefig(filename) *)
| For (targets reads : list string) (count : nat) (body : list stmt)
| If (reads : list string) (body : list stmt)
| Try (body : list stmt) (handlers : list (list stmt))
      (orelse finalbody : option (list stmt)).
Local Set Elimination Schemes.

(** *** Compilation *)

Definition is_quote (c : ascii) : bool :=
  (c =? "'")%char || (c =? ascii_of_nat 34)%char.
Definition is_open (c : ascii) : bool :=
  (c =? "(")%char || (c =? "[")%char || (c =? "{")%char.
Definition is_close (c : ascii) : bool :=
  (c =? ")")%char || (c =? "]")%char || (c =? "}")%char.

(** The tokenizer's bracket count over a statement: [quote] is the
    delimiter of the string literal being read, [depth] the number of
    brackets open.  A closing bracket at depth 0 is rejected. *)
Fixpoint brackets (src : string) (quote : option ascii) (depth : nat) : bool :=
  match src with
  | EmptyString =>
      match quote, depth with
      | None, O => true
      | _, _ => false
      end
  | String c rest =>
      match quote with
      | Some q =>
          if (c =? q)%char then brackets rest None depth
          else brackets rest quote depth
      | None =>
          if is_quote c then brackets rest (Some c) depth
          else if is_open c then brackets rest None (S depth)
          else if is_close c then
            match depth with
            | O => false
            | S d => brackets rest None d
            end
          else brackets rest None depth
      end
  end.

Definition brackets_balanced (src : string) : bool := brackets src None 0.

(** The grammar of [try]: either [finally] alone, or one or more
    [except] clauses, which an [else] clause may follow. *)
Definition try_clauses_ok (handlers : list (list stmt))
           (orelse finalbody : option (list stmt)) : bool :=
  match handlers with
  | [] =>
      match orelse, finalbody with
      | None, Some _ => true
      | _, _ => false
      end
  | _ :: _ => true
  end.

Fixpoint parses (s : stmt) : bool :=
  match s with
  | ExprSrc src _ => brackets_balanced src
  | For _ _ _ body => forallb parses body
  | If _ body => forallb parses body
  | Try body handlers orelse finalbody =>
      try_clauses_ok handlers orelse finalbody
      && forallb parses body
      && forallb (forallb parses) handlers
      && match orelse with Some b => forallb parses b | None => true end
      && match finalbody with Some b => forallb parses b | None => true end
  | _ => true
  end.

Definition compiles (script : list stmt) : bool := forallb parses script.

(** *** Execution *)

(** What the script finds around it: the style sheets that can be
    loaded. *)
Record environment : Type := { style_sheets : list string }.

Record state : Type := {
  bound : list string;     (* names bound in the global namespace *)
  stdout : list string;    (* lines printed *)
  files : list string      (* files written to the working directory *)
}.

Inductive status : Type :=
| Normal
| Uncaught (e : exn).

Definition builtins : list string :=
  ["print"; "zip"; "range"; "enumerate"; "dict"; "len"; "int"; "bool"; "str"].

Definition initial : state :=
  {| bound := builtins; stdout := []; files := [] |}.

Definition mem (name : string) (names : list string) : bool :=
  existsb (String.eqb name) names.

Definition first_unbound (reads : list string) (st : state) : option string :=
  find (fun name => negb (mem name (bound st))) reads.

Definition bind_names (targets : list string) (st : state) : state :=
  {| bound := targets ++ bound st; stdout := stdout st; files := files st |}.

(** Evaluate an expression that reads [reads], then go on with [k]. *)
Definition eval (reads : list string) (st : state) (k : state -> state * status)
  : state * status :=
  match first_unbound reads st with
  | Some name => (st, Uncaught (NameError name))
  | None => k st
  end.

Fixpoint exec (env : environment) (s : stmt) (st : state) {struct s}
  : state * status :=
  let exec_body :=
    fix exec_body (b : list stmt) (st : state) {struct b} : state * status :=
      match b with
      | [] => (st, Normal)
      | s' :: b' =>
          match exec env s' st with
          | (st', Normal) => exec_body b' st'
          | stopped => stopped
          end
      end in
  match s with
  | Import binds => (bind_names binds st, Normal)
  | Assign targets reads =>
      eval reads st (fun st => (bind_names targets st, Normal))
  | Expr reads => eval reads st (fun st => (st, Normal))
  | ExprSrc _ reads => eval reads st (fun st => (st, Normal))
  | FunctionDef name reads =>
      eval reads st (fun st => (bind_names [name] st, Normal))
  | StyleUse sheet =>
      eval ["plt"] st (fun st =>
        if mem sheet (style_sheets env) then (st, Normal)
        else (st, Uncaught OSError))
  | Print message =>
      eval ["print"] st (fun st =>
        ({| bound := bound st; stdout := stdout st ++ [message];
            files := files st |}, Normal))
  | SaveFig filename =>
      eval ["plt"] st (fun st =>
        ({| bound := bound st; stdout := stdout st;
            files := files st ++ [filename] |}, Normal))
  | For targets reads count body =>
      eval reads st (fun st =>
        (fix loop (n : nat) (st : state) {struct n} : state * status :=
           match n with
           | O => (st, Normal)
           | S n' =>
               match exec_body body (bind_names targets st) with
               | (st', Normal) => loop n' st'
               | stopped => stopped
               end
           end) count st)
  | If reads body => eval reads st (fun st => exec_body body st)
  | Try body handlers orelse finalbody =>
      let r :=
        match exec_body body st with
        | (st', Normal) =>
            match orelse with
            | Some b => exec_body b st'
            | None => (st', Normal)
            end
        | (st', Uncaught e) =>
            match handlers with
            | h :: _ => exec_body h st'      (* a bare [except:] *)
            | [] => (st', Uncaught e)
            end
        end in
      match finalbody with
      | None => r
      | Some f =>
          match exec_body f (fst r) with
          | (st'', Normal) => (st'', snd r)
          | stopped => stopped
          end
      end
  end.

Fixpoint exec_block (env : environment) (b : list stmt) (st : state)
  : state * status :=
  match b with
  | [] => (st, Normal)
  | s :: b' =>
      match exec env s st with
      | (st', Normal) => exec_block env b' st'
      | stopped => stopped
      end
  end.

(** What an observer of [python script.py] sees. *)
Record outcome : Type := {
  exit_status : status;
  printed : list string;
  written : list string
}.

Definition run (env : environment) (script : list stmt) : outcome :=
  if compiles script then
    let '(st, status) := exec_block env script initial in
    {| exit_status := status; printed := stdout st; written := files st |}
  else
    {| exit_status := Uncaught SyntaxError; printed := []; written := [] |}.

End Script.

(** ** The three scripts, statement by statement *)

Module Scripts.

Import Script.
Local Open Scope string_scope.

Definition mnras : string := "mnras.mplstyle".

Definition notice : string :=
  "Matplotlib stylesheet `mnras.mplstyle` not found. You can download it from "
  ++ "https://github.com/edoaltamura/matplotlib-stylesheets - Reverting to default.".

(** [pipeline_data_size.py] *)
Definition pipeline_data_size : list stmt :=
  [ Expr [];                                            (* 1-19, docstring *)
    Import ["np"]; Import ["interpolate"]; Import ["plt"];
    Import ["transforms"]; Import ["mpatches"]; Import ["Line2D"];
    Try [StyleUse mnras] [] (Some [Print notice]) None;          (* 29-33 *)
    Assign ["palette_ref"] [];                                      (* 36 *)
    FunctionDef "convert_bytes" ["int"; "bool"; "str"];          (* 39-60 *)
    Assign ["colors"] [];                                           (* 63 *)
    Assign ["label"] [];                                         (* 66-89 *)
    Assign ["byte_size"] ["np"; "byte_size"];                       (* 91 *)
    Assign ["process_id"] ["np"; "len"; "byte_size"];               (* 92 *)
    Assign ["byte_size"] [];                                    (* 96-115 *)
    Assign ["fig"; "axes"] ["plt"];                                (* 119 *)
    Expr ["axes"]; Expr ["axes"];                              (* 120-121 *)
    Expr ["axes"; "process_id"];                                   (* 122 *)
    Expr ["axes"; "range"];                                        (* 123 *)
    Expr ["axes"]; Expr ["axes"];                              (* 124-125 *)
    Assign ["bar_kwargs"] ["dict"];                                (* 128 *)
    Assign ["x_cumsum"] [];                                        (* 131 *)
    For ["y"; "x"; "c"; "l"]
        ["zip"; "process_id"; "byte_size"; "colors"; "label"] 15  (* 132 *)
      [ Assign ["x_cumsum"] ["x_cumsum"; "x"];
        Expr ["axes"; "x_cumsum"; "y"; "c"];
        Expr ["axes"; "y"; "c"];
        Expr ["axes"; "x"; "y"; "c"];
        Expr ["axes"; "x"; "y"; "c"];
        Expr ["axes"; "y"; "l"] ];
    For ["i"] ["range"] 5                                          (* 142 *)
      [ Expr ["axes"; "i"];
        Expr ["axes"; "i"; "convert_bytes"] ];
    Expr ["axes"]; Expr ["axes"];                              (* 147-148 *)
    Expr ["axes"]; Expr ["axes"];                              (* 151-152 *)
    Assign ["handles"] ["Line2D"];                             (* 155-158 *)
    Assign ["legend_frame"] ["axes"; "handles"];                   (* 161 *)
    Expr ["axes"; "palette_ref"]; Expr ["axes"; "palette_ref"];
    Expr ["axes"; "palette_ref"]; Expr ["axes"; "palette_ref"]; (* 164-167 *)
    Assign ["trans"] ["transforms"; "axes"];                       (* 170 *)
    Assign ["text_kwargs"] ["dict"; "trans"];                  (* 171-178 *)
    Expr ["axes"; "text_kwargs"]; Expr ["axes"; "text_kwargs"];
    Expr ["axes"; "text_kwargs"]; Expr ["axes"; "text_kwargs"]; (* 179-182 *)
    SaveFig "pipeline_data_size.pdf" ].                            (* 185 *)

(** Source text of the last four [plt.annotate] statements of
    [cosmological_horizon.py] (lines 123-130, 132-139, 141-148 and
    150-156), trailing blanks removed. *)
Definition annotate_sub_horizon : string :=
"plt.annotate('Sub-horizon',
             xy=(1e-7, mode(10) / 1e-7),
             xytext=(8e-3, mode(10) / 8e-3),
             horizontalalignment='center',
             verticalalignment='center',
             rotation=rotation_angle,
             fontsize=8
             **text_kwargs))".

Definition annotate_no_crossing : string :=
"plt.annotate('No horizon crossing in the past',
             xytext=(3e-7, mode(2.8e5) / 3e-7),
             xy=(1e-3, mode(2.8e5) / 1e-3),
             horizontalalignment='center',
             verticalalignment='bottom',
             rotation=rotation_angle,
             fontsize=5,
             **text_kwargs))".

Definition annotate_early_times : string :=
"plt.annotate('Early times',
             xy=(3e-8, 1e-24),
             xytext=(3e-7, 1e-24),
             horizontalalignment='left',
             verticalalignment='center',
             fontsize=8,
             arrowprops=dict(ls='-', **arrow_kwargs),
             **text_kwargs))".

Definition annotate_late_times : string :=
"plt.annotate('Late times',
             xy=(3e-2, 1e-24),
             xytext=(3e-3, 1e-24),
             horizontalalignment='right', verticalalignment='center',
             fontsize=8,
             arrowprops=dict(ls='-', **arrow_kwargs),
             **text_kwargs))".

(** [cosmological_horizon.py] *)
Definition cosmological_horizon : list stmt :=
  [ Expr [];                                            (* 1-15, docstring *)
    Import ["np"]; Import ["plt"]; Import ["cosmology"]; Import ["const"];
    FunctionDef "get_aspect" [];                                 (* 22-45 *)
    FunctionDef "mode" [];                                       (* 48-56 *)
    Try [StyleUse mnras] [] (Some [Print notice]) None;          (* 60-64 *)
    Assign ["palette_ref"] [];                                      (* 67 *)
    Assign ["redshifts_p1"] ["np"];                                 (* 70 *)
    Assign ["scale_factors"] ["redshifts_p1"];                      (* 71 *)
    Assign ["Hz_natural"] ["cosmology"; "redshifts_p1"; "const"];   (* 74 *)
    Assign ["fig"; "ax"] ["plt"];                                   (* 77 *)
    Expr ["ax"];                                                    (* 79 *)
    Expr ["ax"; "scale_factors"; "Hz_natural"];                     (* 80 *)
    For ["i"; "l"; "txt"] ["enumerate"; "zip"] 4                    (* 82 *)
      [ Expr ["ax"; "scale_factors"; "mode"; "l"; "txt"; "palette_ref"; "i"];
        Assign ["x_cross_id"]
               ["np"; "mode"; "l"; "scale_factors"; "Hz_natural"];
        Assign ["x_cross"] ["scale_factors"; "x_cross_id"];
        Assign ["y_cross"] ["mode"; "l"; "x_cross"];
        Expr ["ax"; "x_cross"; "y_cross"; "palette_ref"; "i"];
        If ["l"] [ Expr ["plt"; "x_cross"; "y_cross"; "dict"] ] ];
    Expr ["ax"]; Expr ["ax"]; Expr ["ax"];
    Expr ["ax"]; Expr ["ax"]; Expr ["ax"];                     (* 101-106 *)
    Assign ["text_kwargs"] ["dict"];                               (* 109 *)
    Assign ["arrow_kwargs"] ["dict"];                              (* 110 *)
    Assign ["rotation_angle"] ["np"; "get_aspect"; "ax"];          (* 111 *)
    Expr ["plt"; "mode"; "rotation_angle"; "dict"; "arrow_kwargs";
          "text_kwargs"];                                      (* 113-121 *)
    ExprSrc annotate_sub_horizon
            ["plt"; "mode"; "rotation_angle"; "text_kwargs"];  (* 123-130 *)
    ExprSrc annotate_no_crossing
            ["plt"; "mode"; "rotation_angle"; "text_kwargs"];  (* 132-139 *)
    ExprSrc annotate_early_times
            ["plt"; "dict"; "arrow_kwargs"; "text_kwargs"];    (* 141-148 *)
    ExprSrc annotate_late_times
            ["plt"; "dict"; "arrow_kwargs"; "text_kwargs"];    (* 150-156 *)
    SaveFig "cosmological_horizon.pdf" ].                          (* 159 *)

(** [cosmological_parameters.py] *)
Definition cosmological_parameters : list stmt :=
  [ Expr [];                                            (* 1-15, docstring *)
    Import ["np"]; Import ["plt"]; Import ["transforms"];
    Import ["cosmology"];
    Try [StyleUse mnras] [[Print notice]] None None;             (* 23-27 *)
    Assign ["palette_ref"] []; Assign ["palette_light"] [];      (* 30-31 *)
    Assign ["redshifts_p1"] ["np"];                                 (* 34 *)
    Assign ["scale_factors"] ["redshifts_p1"];                      (* 35 *)
    Assign ["fig"; "axes"] ["plt"];                                 (* 38 *)
    Assign ["ax"] ["axes"];                                         (* 41 *)
    Expr ["ax"];                                                    (* 42 *)
    Expr ["ax"; "redshifts_p1"; "cosmology"; "palette_light"];   (* 45-52 *)
    Expr ["ax"; "redshifts_p1"; "cosmology"; "palette_ref"];        (* 55 *)
    Expr ["ax"; "redshifts_p1"; "cosmology"; "palette_ref"];
    Expr ["ax"; "redshifts_p1"; "cosmology"; "palette_ref"];
    Expr ["ax"; "redshifts_p1"; "cosmology"; "palette_ref"];
    Expr ["ax"; "redshifts_p1"; "cosmology"; "palette_ref"];
    Expr ["ax"; "redshifts_p1"; "cosmology"; "palette_ref"];
    Expr ["ax"; "redshifts_p1"; "cosmology"; "palette_light"];      (* 61 *)
    Expr ["ax"; "cosmology"; "palette_light"];                      (* 64 *)
    Expr ["ax"; "cosmology"; "palette_light"];
    Expr ["ax"; "cosmology"; "palette_ref"];
    Expr ["ax"; "cosmology"; "palette_ref"];
    Expr ["ax"; "cosmology"; "palette_ref"];
    Expr ["ax"; "cosmology"; "palette_ref"];
    Expr ["ax"; "cosmology"; "palette_light"];                      (* 70 *)
    Assign ["trans"] ["transforms"; "ax"];                          (* 72 *)
    Expr ["ax"; "palette_ref"; "trans"];                         (* 74-82 *)
    Expr ["ax"]; Expr ["ax"]; Expr ["ax"]; Expr ["ax"];          (* 85-88 *)
    Assign ["ax2"] ["ax"];                                          (* 90 *)
    Expr ["ax2"]; Expr ["ax2"]; Expr ["ax2"];                    (* 91-93 *)
    Assign ["ax"] ["axes"];                                         (* 96 *)
    Expr ["ax"];                                                    (* 97 *)
    Expr ["ax"; "redshifts_p1"; "cosmology"; "palette_light"];     (* 100 *)
    Expr ["ax"; "redshifts_p1"; "cosmology"; "np"; "scale_factors";
          "palette_ref"];                                          (* 101 *)
    Expr ["ax"; "redshifts_p1"; "cosmology"; "np"; "scale_factors";
          "palette_ref"];
    Expr ["ax"; "redshifts_p1"; "cosmology"; "np"; "scale_factors";
          "palette_ref"];
    Expr ["ax"; "redshifts_p1"; "cosmology"; "np"; "scale_factors";
          "palette_ref"];
    Expr ["ax"; "redshifts_p1"; "cosmology"; "np"; "scale_factors";
          "palette_ref"];
    Expr ["ax"; "redshifts_p1"; "cosmology"; "np"; "scale_factors";
          "palette_ref"];                                          (* 106 *)
    Expr ["ax"; "cosmology"; "palette_light"];                     (* 109 *)
    Expr ["ax"; "cosmology"];                                  (* 111-119 *)
    Expr ["ax"]; Expr ["ax"]; Expr ["ax"]; Expr ["ax"];
    Expr ["ax"];                                               (* 122-126 *)
    Assign ["matter_radiation_equality"] ["cosmology"];            (* 129 *)
    Expr ["ax"; "matter_radiation_equality"];                      (* 130 *)
    Expr ["axes"; "matter_radiation_equality"];                    (* 131 *)
    Assign ["matter_lambda_equality"] ["cosmology"];               (* 133 *)
    Expr ["ax"; "matter_lambda_equality"];                         (* 134 *)
    Expr ["axes"; "matter_lambda_equality"];                       (* 135 *)
    Expr ["ax"; "matter_radiation_equality"; "palette_ref"];       (* 137 *)
    Expr ["ax"; "matter_radiation_equality"; "matter_lambda_equality";
          "palette_ref"];                                          (* 138 *)
    Expr ["ax"; "matter_lambda_equality"; "palette_ref"];          (* 139 *)
    Assign ["trans"] ["transforms"; "ax"];                         (* 142 *)
    Assign ["eras_label_kwargs"] ["dict"; "trans"];            (* 143-144 *)
    Expr ["ax"; "eras_label_kwargs"]; Expr ["ax"; "eras_label_kwargs"];
    Expr ["ax"; "eras_label_kwargs"];                          (* 146-148 *)
    Expr ["ax"; "matter_radiation_equality"; "eras_label_kwargs"]; (* 149 *)
    Expr ["ax"; "matter_lambda_equality"; "eras_label_kwargs"];    (* 150 *)
    SaveFig "cosmological_parameters.pdf" ].                       (* 153 *)

Definition with_sheet : environment := {| style_sheets := [mnras] |}.
Definition without_sheet : environment := {| style_sheets := [] |}.

(** The style-sheet statement as two of the scripts spell it
    ([try: ... else: ...]) and as the third does
    ([try: ... except: ...]). *)
Definition try_else : stmt :=
  Try [StyleUse mnras] [] (Some [Print notice]) None.
Definition try_except : stmt :=
  Try [StyleUse mnras] [[Print notice]] None None.

(** A script stopped by the compiler. *)
Definition rejected : outcome :=
  {| exit_status := Uncaught Py.SyntaxError; printed := []; written := [] |}.

End Scripts.

(** ** Binary64 arithmetic

  Floats as IEEE 754 prescribes them, from the Standard Library's
  specification: the two helper functions of [cosmological_horizon.py]
  are computed on them as the interpreter does. *)

Module Binary64.

Local Open Scope Z_scope.

Definition prec : Z := 53.
Definition emax : Z := 1024.

(** The float [m * 2^e]. *)
Definition float (m e : Z) : spec_float := binary_normalize prec emax m e false.

Definition mul : spec_float -> spec_float -> spec_float := SFmul prec emax.
Definition div : spec_float -> spec_float -> spec_float := SFdiv prec emax.
Definition sub : spec_float -> spec_float -> spec_float := SFsub prec emax.

(** Neither an infinity nor nan. *)
Definition is_finite (f : spec_float) : bool :=
  match f with
  | S754_zero _ | S754_finite _ _ _ => true
  | S754_infinity _ | S754_nan => false
  end.

Definition np_pi : spec_float := float 7074237752028440 (-51).
Definition const_parsec : spec_float := float 30856775814913672 0.

Definition mode (wavelength_mpc : spec_float) : spec_float :=
  let mode_conversion := mul const_parsec (float 1000000 0) in
  div (mul (float 4 0) np_pi) (mul wavelength_mpc mode_conversion).

(** The integer a float stands for, when it is one. *)
Definition integer_value (f : spec_float) : option Z :=
  match f with
  | S754_zero _ => Some 0
  | S754_finite s m e =>
      let sign := if s then -1 else 1 in
      if 0 <=? e then Some (sign * Z.pos m * 2 ^ e)
      else if Z.pos m mod 2 ^ (- e) =? 0 then Some (sign * (Z.pos m / 2 ^ (- e)))
      else None
  | _ => None
  end.

(** Ints around the points where the rounding of [float(n)] matters. *)
Definition sample_ints : list Z :=
  [0; 1; 1023; 1024; 2 ^ 53; 2 ^ 53 + 1; 2 ^ 53 + 2; 2 ^ 53 + 3;
   2 ^ 54 + 2; 2 ^ 54 + 6; 1024 ^ 6 - 65; 1024 ^ 6 - 64; 1024 ^ 6 - 63;
   1024 ^ 6; 2 ^ 1024 - 2 ^ 970 - 1].

(** Two neighbouring floats, printed by Python as 2998.6494535761335
    and 2998.649453576134. *)
Definition wavelength_lo : spec_float := float 6594099883662215 (-41).
Definition wavelength_hi : spec_float := float 6594099883662216 (-41).

End Binary64.

(** ** cosmological_horizon.py: [get_aspect] in binary64

  The arithmetic is that of numpy's float64 scalars, which never raises:
  a zero divisor gives [inf] or [nan].  [np.log10] belongs to the
  library: it is a parameter of the model, any function from floats to
  floats. *)

Module GetAspect.

Import Py Binary64.

(** What [get_aspect] asks of its argument. *)
Record Axes : Type := {
  get_size_inches : spec_float * spec_float;
                                   (* ax.get_figure().get_size_inches() *)
  bounds : spec_float * spec_float * spec_float * spec_float;
                                   (* ax.get_position().bounds *)
  get_ylim : spec_float * spec_float;
  get_xlim : spec_float * spec_float;
  get_yscale : string;
  get_xscale : string
}.

Section WithLog10.

Variable np_log10 : spec_float -> spec_float.

(** [np.log10(lim[1]) - np.log10(lim[0]) if scale == 'log' else sub( *lim)];
    the name [sub] is bound nowhere in the script. *)
Definition delta (lim : spec_float * spec_float) (scale : string)
  : exc spec_float :=
  if String.eqb scale "log" then Ok (sub (np_log10 (snd lim)) (np_log10 (fst lim)))
  else Err (NameError "sub").

Definition get_aspect (ax : Axes) : result spec_float :=
  let '(figW, figH) := get_size_inches ax in
  let '(_, _, w, h) := bounds ax in
  let disp_ratio := div (mul figH h) (mul figW w) in
  match delta (get_ylim ax) (get_yscale ax) with
  | Err e => Raise e
  | Ok delta_y =>
      match delta (get_xlim ax) (get_xscale ax) with
      | Err e => Raise e
      | Ok delta_x =>
          let data_ratio := div delta_y delta_x in
          Return (div disp_ratio data_ratio)
      end
  end.

End WithLog10.



(** The literals 6.4, 4.8, 0.11, 0.775, 0.77, 1e-25, 1e-12 and 1e-8 as
    floats. *)
Definition f_6_4 : spec_float := float 3602879701896397 (-49).
Definition f_4_8 : spec_float := float 5404319552844595 (-50).
Definition f_0_125 : spec_float := float 1 (-3).
Definition f_0_11 : spec_float := float 7926335344172073 (-56).
Definition f_0_775 : spec_float := float 6980579422424269 (-53).
Definition f_0_77 : spec_float := float 1733885856537641 (-51).
Definition f_1e_25 : spec_float := float 8711228593176025 (-136).
Definition f_1e_12 : spec_float := float 4951760157141521 (-92).
Definition f_1e_8 : spec_float := float 3022314549036573 (-78).

(** Axes as [plt.subplots()] and [ax.loglog()] leave them once the
    script has set its limits: default figure size and subplot
    position. *)
Definition loglog_axes : Axes :=
  {| get_size_inches := (f_6_4, f_4_8);
     bounds := (f_0_125, f_0_11, f_0_775, f_0_77);
     get_ylim := (f_1e_25, f_1e_12);
     get_xlim := (f_1e_8, float 1 0);
     get_yscale := "log";
     get_xscale := "log" |}.




End GetAspect.

(** ** Binary64 values by the numbers they denote

  A second form of the same arithmetic, to reason about order: a finite
  float is held by the rational it denotes, and every operation is the
  exact one followed by rounding to nearest, ties to even, on the grid
  of the result's binade: 53 significant bits, steps of [2^-1074] below
  [2^-1021], infinity from [2^1024] on.  Zero has no sign here.  The
  operations are proved below to give the floats that those of the
  Standard Library give. *)

Module Float64.

Import Py.
Local Open Scope Q_scope.

Inductive float : Type :=
| Fin (q : Q)
| Inf (negative : bool)
| NaN.

Definition pow2 (z : Z) : Q := 2 ^ z.

(** The [e] with [2^(e-1) <= q < 2^e], for a positive [q]. *)
Definition magnitude (q : Q) : Z :=
  let k := (Z.log2 (Qnum q) - Z.log2 (Z.pos (Qden q)))%Z in
  if Qle_bool (pow2 k) q then (k + 1)%Z else k.

(** Exponent of the grid step in the binade of magnitude [e]. *)
Definition fexp (e : Z) : Z := Z.max (e - 53) (-1074).

Definition round_pos (q : Q) : Q :=
  let step := pow2 (fexp (magnitude q)) in
  inject_Z (round_half_even (q / step)) * step.

Definition overflow (negative : bool) (v : Q) : float :=
  if Qle_bool (pow2 1024) v then Inf negative
  else Fin (if negative then - v else v).

Definition round (q : Q) : float :=
  match q ?= 0 with
  | Eq => Fin 0
  | Gt => overflow false (round_pos q)
  | Lt => overflow true (round_pos (- q))
  end.

Definition negative (q : Q) : bool :=
  match q ?= 0 with
  | Lt => true
  | _ => false
  end.

Definition mul (x y : float) : float :=
  match x, y with
  | NaN, _ | _, NaN => NaN
  | Fin p, Fin q => round (p * q)
  | Inf s, Inf t => Inf (xorb s t)
  | Inf s, Fin q | Fin q, Inf s =>
      match q ?= 0 with
      | Eq => NaN
      | _ => Inf (xorb s (negative q))
      end
  end.

(** Division by zero gives [inf] or [nan], the zero taken as positive. *)
Definition div (x y : float) : float :=
  match x, y with
  | NaN, _ | _, NaN => NaN
  | Inf _, Inf _ => NaN
  | Inf s, Fin q => Inf (xorb s (negative q))
  | Fin _, Inf _ => Fin 0
  | Fin p, Fin q =>
      match q ?= 0 with
      | Eq => match p ?= 0 with Eq => NaN | _ => Inf (negative p) end
      | _ => round (p / q)
      end
  end.

(** The order of floats; [nan] is not comparable. *)
Definition le (x y : float) : Prop :=
  match x, y with
  | NaN, _ | _, NaN => False
  | Fin p, Fin q => p <= q
  | Inf s, Inf t => s = true \/ t = false
  | Inf s, Fin _ => s = true
  | Fin _, Inf t => t = false
  end.

Definition below (x y : float) : Prop :=
  match x, y with
  | Fin p, Fin q => p < q
  | Inf true, Fin _ | Inf true, Inf false | Fin _, Inf false => True
  | _, _ => False
  end.

(** Equality of floats as values. *)
Definition feq (x y : float) : Prop :=
  match x, y with
  | Fin p, Fin q => p == q
  | Inf s, Inf t => s = t
  | NaN, NaN => True
  | _, _ => False
  end.

Definition same (x y : float) : bool :=
  match x, y with
  | Fin p, Fin q => Qeq_bool p q
  | Inf s, Inf t => Bool.eqb s t
  | NaN, NaN => true
  | _, _ => false
  end.

(** [np.pi] and [scipy.constants.parsec], in metres. *)
Definition np_pi : float := Fin (inject_Z 7074237752028440 * pow2 (-51)).
Definition const_parsec : float := Fin 30856775814913672.

Definition mode (wavelength_mpc : float) : float :=
  let mode_conversion := mul const_parsec (Fin 1000000) in
  div (mul (Fin 4) np_pi) (mul wavelength_mpc mode_conversion).

(** The value of a float of the Standard Library's specification. *)
Definition value_of (f : spec_float) : float :=
  match f with
  | S754_zero _ => Fin 0
  | S754_infinity s => Inf s
  | S754_nan => NaN
  | S754_finite s m e =>
      Fin ((if s then - (1) else 1) * inject_Z (Z.pos m) * pow2 e)
  end.

(** The magnitude of a finite float, and the value with its sign. *)
Definition abs_value (m : positive) (e : Z) : Q := inject_Z (Z.pos m) * pow2 e.

Definition signed (s : bool) (a : Q) : Q := if s then - a else a.

Definition denote (x : spec_float) : float :=
  match x with
  | S754_finite s m e => Fin (signed s (abs_value m e))
  | other => value_of other
  end.

(** Floats that are not negative; the zero among them is [+0]. *)
Definition sign_nonneg (x : spec_float) : Prop :=
  match x with
  | S754_zero s | S754_infinity s | S754_finite s _ _ => s = false
  | S754_nan => True
  end.

End Float64.

(** ** The steps of the Standard Library's rounding

  [binary_round_aux] shifts a mantissa with two sticky bits to the right
  until it is on the grid of the number's binade, rounds it there, and
  shifts once more if rounding has carried.  What the steps keep is
  stated on the number [x] that is being rounded. *)

Module RoundingSteps.

Import Float64.
Local Open Scope Q_scope.

(** Where [t] lies among the integers: at [m], or strictly between [m]
    and [m + 1], below, at or above the middle. *)
Definition locQ (m : Z) (l : location) (t : Q) : Prop :=
  match l with
  | loc_Exact => t == inject_Z m
  | loc_Inexact c =>
      inject_Z m < t /\ t < inject_Z m + 1 /\ (t ?= inject_Z m + (1 # 2)) = c
  end.

(** The record [mrs] holds [x] on the grid of step [2^e]. *)
Definition inv (mrs : shr_record) (e : Z) (x : Q) : Prop :=
  (0 <= shr_m mrs)%Z /\ locQ (shr_m mrs) (loc_of_shr_record mrs) (x / pow2 e).

(** What [binary_round_aux] makes of the mantissa and exponent it ends
    on. *)
Definition finish (s : bool) (m e : Z) : spec_float :=
  match m with
  | Z0 => S754_zero s
  | Zpos p => if (e <=? 1024 - 53)%Z then S754_finite s p e else S754_infinity s
  | Zneg _ => S754_nan
  end.

End RoundingSteps.

(** ** cosmological_horizon.py: [get_aspect] over the reals

  An idealised form of [get_aspect], used for the sign of its result
  only: a finite float is the real it denotes and rounding is left out,
  while the non-finite results of numpy's arithmetic ([inf], [nan]) are
  kept apart from the finite ones. *)

Module CosmologicalHorizon.

Import Py.
Local Open Scope R_scope.

(** A [numpy.float64]: a finite real, an infinity of either sign, or
    nan. *)
Inductive float64 : Type :=
| Fin (r : R)
| Inf
| NaN.

(** Division of numpy scalars never raises: a zero divisor gives [inf]
    (or [nan] for [0/0]) and a finite value over [inf] gives zero. *)
Definition fdiv (a b : float64) : float64 :=
  match a, b with
  | NaN, _ | _, NaN => NaN
  | Inf, Inf => NaN
  | Inf, Fin _ => Inf
  | Fin _, Inf => Fin 0
  | Fin x, Fin y =>
      if Req_dec_T y 0 then (if Req_dec_T x 0 then NaN else Inf)
      else Fin (x / y)
  end.

(** [np.log10] on a finite argument: [-inf] at zero, [nan] below. *)
Definition log10 (x : R) : float64 :=
  if Rlt_dec 0 x then Fin (ln x / ln 10)
  else if Req_dec_T x 0 then Inf
  else NaN.

(** Difference of two [log10] values; the only infinity either can be
    is [-inf], and [-inf - -inf] is [nan]. *)
Definition fsub (a b : float64) : float64 :=
  match a, b with
  | NaN, _ | _, NaN => NaN
  | Inf, Inf => NaN
  | Inf, Fin _ | Fin _, Inf => Inf
  | Fin x, Fin y => Fin (x - y)
  end.

(** What [get_aspect] asks of its argument. *)
Record Axes : Type := {
  get_size_inches : R * R;       (* ax.get_figure().get_size_inches() *)
  bounds : R * R * R * R;        (* ax.get_position().bounds *)
  get_ylim : R * R;
  get_xlim : R * R;
  get_yscale : string;
  get_xscale : string
}.

(** [log10(lim[1]) - log10(lim[0]) if scale == 'log' else sub( *lim)];
    the name [sub] is bound nowhere in the script. *)
Definition delta (lim : R * R) (scale : string) : exc float64 :=
  if String.eqb scale "log" then Ok (fsub (log10 (snd lim)) (log10 (fst lim)))
  else Err (NameError "sub").

Definition get_aspect (ax : Axes) : result float64 :=
  let '(figW, figH) := get_size_inches ax in
  let '(_, _, w, h) := bounds ax in
  let disp_ratio := fdiv (Fin (figH * h)) (Fin (figW * w)) in
  match delta (get_ylim ax) (get_yscale ax) with
  | Err e => Raise e
  | Ok delta_y =>
      match delta (get_xlim ax) (get_xscale ax) with
      | Err e => Raise e
      | Ok delta_x =>
          let data_ratio := fdiv delta_y delta_x in
          Return (fdiv disp_ratio data_ratio)
      end
  end.

(** Axes as [plt.subplots()] and [ax.loglog()] leave them once the
    script has set its limits: default figure size and subplot
    position. *)
Definition loglog_axes : Axes :=
  {| get_size_inches := (6.4, 4.8);
     bounds := (0.125, 0.11, 0.775, 0.77);
     get_ylim := (1e-25, 1e-12);
     get_xlim := (1e-8, 1);
     get_yscale := "log";
     get_xscale := "log" |}.

End CosmologicalHorizon.

(** ** pipeline_data_size.py: what is drawn around the markers *)

Module PipelineFigure.

Import Py PipelineDataSize.
Local Open Scope Q_scope.

(** [axes.set_xlim(0.1, 1E21)]; [0.1] is the binary64 value of that
    literal. *)
Definition xlim : Q * Q :=
  (3602879701896397 # 36028797018963968, inject_Z (10 ^ 21)).

(** The dotted guide of each row, [axes.plot([1, 1E15], [y, y], ...)]. *)
Definition guide : Q * Q := (1, inject_Z (10 ^ 15)).

(** Abscissa of the row labels, [axes.text(2E15, y, l, ...)]. *)
Definition label_x : Q := inject_Z (2 * 10 ^ 15).

(** The abscissa [x] is inside the axis limits. *)
Definition within_xlim (x : Q) : Prop := fst xlim < x /\ x < snd xlim.

End PipelineFigure.

(** ** cosmological_horizon.py: what the helpers are used for *)

Module HorizonFigure.

Import Py CosmologicalHorizon.
Local Open Scope R_scope.





(** The wavelengths of the plotted modes, in Mpc (line 82), and their
    modes as the interpreter computes them. *)
Definition wavelengths : list Z := [1; 100; 1000; 30000]%Z.

Definition binary64_modes : list spec_float :=
  map (fun l => Binary64.mode (Binary64.float l 0)) wavelengths.

(** Each float of the list is finite, positive and larger than the
    next. *)
Fixpoint strictly_falling (values : list spec_float) : bool :=
  match values with
  | [] => true
  | v :: rest =>
      SFltb (Binary64.float 0 0) v
      && match rest with
         | [] => true
         | w :: _ => SFltb w v
         end
      && strictly_falling rest
  end.


End HorizonFigure.

(** * Properties *)

(** ** The byte formatter *)

Section ConvertBytes.

Import Py PipelineDataSize.
Local Open Scope Z_scope.

(** *** Conversion of an int to float *)

Lemma round_significand_small (a : Z) :
  0 <= a < 2 ^ 53 -> round_significand a = a.
Proof.
  intros [Ha Hlt]. unfold round_significand.
  destruct (Z.eq_dec a 0) as [->|Hnz]; [reflexivity|].
  assert (Z.log2 a < 53) by (apply Z.log2_lt_pow2; lia).
  destruct (Z.leb_spec (Z.log2 a - 52) 0); [reflexivity | lia].
Qed.

Lemma float_of_int_small (n : Z) :
  0 <= n < 2 ^ 53 -> float_of_int n = Ok (inject_Z n).
Proof.
  intros H. unfold float_of_int.
  rewrite Z.abs_eq by lia. rewrite round_significand_small by assumption.
  destruct (Z.leb_spec (2 ^ 1024) n) as [Hbig|_].
  - assert (2 ^ 53 < 2 ^ 1024) by (apply Z.pow_lt_mono_r; lia). lia.
  - f_equal. f_equal. destruct (Z.eq_dec n 0) as [->|Hnz]; [reflexivity|].
    rewrite Z.sgn_pos by lia. lia.
Qed.

Lemma round_significand_large (a : Z) :
  0 < Z.log2 a - 52 ->
  round_significand a
  = (a / grid_step a + (if rounded_up a then 1 else 0)) * grid_step a.
Proof.
  intros Hd. unfold round_significand, rounded_up, grid_step.
  destruct (Z.leb_spec (Z.log2 a - 52) 0) as [|_]; [lia|].
  cbv zeta.
  destruct ((a mod 2 ^ (Z.log2 a - 52) <? 2 ^ (Z.log2 a - 52 - 1))
            || ((a mod 2 ^ (Z.log2 a - 52) =? 2 ^ (Z.log2 a - 52 - 1))
                && Z.even (a / 2 ^ (Z.log2 a - 52)))); cbn [negb].
  - now rewrite Z.add_0_r.
  - reflexivity.
Qed.

Lemma binade (a : Z) :
  0 < Z.log2 a - 52 ->
  0 < grid_step a
  /\ 2 ^ Z.log2 a = 2 ^ 52 * grid_step a
  /\ 2 ^ 52 * grid_step a <= a < 2 ^ 53 * grid_step a.
Proof.
  intros Hd. unfold grid_step.
  assert (Ha : 0 < a).
  { destruct (Z.ltb_spec 0 a) as [|Hle]; [assumption|].
    rewrite Z.log2_nonpos in Hd by assumption. lia. }
  pose proof (Z.log2_spec a Ha) as [Hlo Hhi].
  assert (Hg : 0 < 2 ^ (Z.log2 a - 52)) by (apply Z.pow_pos_nonneg; lia).
  assert (E1 : 2 ^ Z.log2 a = 2 ^ 52 * 2 ^ (Z.log2 a - 52)).
  { rewrite <- Z.pow_add_r by lia. f_equal. lia. }
  assert (E2 : 2 ^ Z.succ (Z.log2 a) = 2 ^ 53 * 2 ^ (Z.log2 a - 52)).
  { rewrite <- Z.pow_add_r by lia. f_equal. lia. }
  rewrite <- E1, <- E2. auto.
Qed.

Lemma quotient_range (a : Z) :
  0 < Z.log2 a - 52 -> 2 ^ 52 <= a / grid_step a < 2 ^ 53.
Proof.
  intros Hd. destruct (binade a Hd) as (Hg & _ & Hlo & Hhi). split.
  - apply Z.div_le_lower_bound; lia.
  - apply Z.div_lt_upper_bound; lia.
Qed.

Lemma round_significand_binade (a : Z) :
  0 < Z.log2 a - 52 ->
  2 ^ Z.log2 a <= round_significand a <= 2 ^ (Z.log2 a + 1).
Proof.
  intros Hd. rewrite round_significand_large by assumption.
  destruct (binade a Hd) as (Hg & E & _).
  pose proof (quotient_range a Hd) as [Hq1 Hq2].
  assert (E' : 2 ^ (Z.log2 a + 1) = 2 ^ 53 * grid_step a).
  { rewrite Z.pow_add_r by lia. rewrite E. change (2 ^ 53) with (2 ^ 52 * 2 ^ 1). ring. }
  rewrite E, E'. destruct (rounded_up a); nia.
Qed.

(** Within one binade the rounding keeps the order. *)
Lemma round_significand_mono_binade (a b : Z) :
  0 < Z.log2 a - 52 -> Z.log2 a = Z.log2 b -> a <= b ->
  round_significand a <= round_significand b.
Proof.
  intros Hd HL Hab.
  assert (Hd' : 0 < Z.log2 b - 52) by lia.
  rewrite !round_significand_large by assumption.
  destruct (binade a Hd) as (Hg & _ & _).
  assert (G : grid_step b = grid_step a) by (unfold grid_step; now rewrite HL).
  rewrite G.
  apply Z.mul_le_mono_nonneg_r; [lia|].
  assert (Hq : a / grid_step a <= b / grid_step a)
    by (apply Z.div_le_mono; lia).
  destruct (Z.eq_dec (a / grid_step a) (b / grid_step a)) as [Heq|Hne].
  - (* same quotient: the remainders are ordered *)
    pose proof (Z.div_mod a (grid_step a) ltac:(lia)) as Da.
    pose proof (Z.div_mod b (grid_step a) ltac:(lia)) as Db.
    assert (Hr : a mod grid_step a <= b mod grid_step a) by nia.
    rewrite Heq. apply Z.add_le_mono_l.
    unfold rounded_up. rewrite <- HL. fold (grid_step a).
    rewrite <- Heq.
    destruct (Z.ltb_spec (a mod grid_step a) (2 ^ (Z.log2 a - 52 - 1)));
    destruct (Z.ltb_spec (b mod grid_step a) (2 ^ (Z.log2 a - 52 - 1)));
    destruct (Z.eqb_spec (a mod grid_step a) (2 ^ (Z.log2 a - 52 - 1)));
    destruct (Z.eqb_spec (b mod grid_step a) (2 ^ (Z.log2 a - 52 - 1)));
    destruct (Z.even (a / grid_step a)); cbn; lia.
  - destruct (rounded_up a), (rounded_up b); lia.
Qed.

Theorem round_significand_mono (a b : Z) :
  0 <= a <= b -> round_significand a <= round_significand b.
Proof.
  intros [Ha Hab].
  pose proof (Z.log2_le_mono a b Hab) as HL.
  destruct (Z.leb_spec (Z.log2 b - 52) 0) as [Hb|Hb].
  - (* both below 2^53 *)
    unfold round_significand.
    destruct (Z.leb_spec (Z.log2 a - 52) 0); [|lia].
    destruct (Z.leb_spec (Z.log2 b - 52) 0); lia.
  - pose proof (round_significand_binade b Hb) as [Hlo _].
    destruct (Z.eq_dec (Z.log2 a) (Z.log2 b)) as [Heq|Hne].
    + apply round_significand_mono_binade; lia.
    + assert (Hpow : 2 ^ (Z.log2 a + 1) <= 2 ^ Z.log2 b)
        by (apply Z.pow_le_mono_r; lia).
      destruct (Z.leb_spec (Z.log2 a - 52) 0) as [Hsm|Hlg].
      * unfold round_significand at 1.
        destruct (Z.leb_spec (Z.log2 a - 52) 0); [|lia].
        destruct (Z.eq_dec a 0) as [->|Hnz].
        -- pose proof (Z.pow_pos_nonneg 2 (Z.log2 b)
                         ltac:(lia) (Z.log2_nonneg b)). lia.
        -- pose proof (Z.log2_spec a ltac:(lia)) as [_ Hhi].
           replace (Z.succ (Z.log2 a)) with (Z.log2 a + 1) in Hhi by lia.
           lia.
      * pose proof (round_significand_binade a Hlg) as [_ Hhi]. lia.
Qed.

(** The rounding of [float(n)] written above is that of IEEE 754, as
    the Standard Library specifies it, on the sample ints; past the last
    of them the IEEE result is infinite, which Python reports as
    [OverflowError]. *)
Lemma round_significand_ieee :
  map (fun n => Binary64.integer_value (Binary64.float n 0)) Binary64.sample_ints
  = map (fun n => Some (round_significand n)) Binary64.sample_ints
  /\ Binary64.float (2 ^ 1024 - 2 ^ 970) 0 = S754_infinity false.
Proof. split; vm_compute; reflexivity. Qed.

(** Division by [1024.0] is exact on the floats the loop meets: a few
    samples, checked against the IEEE division. *)
Lemma division_by_1024_ieee :
  map (fun n => Binary64.div (Binary64.float n 0) (Binary64.float 1024 0))
      [1024; 1536; 1024 ^ 6; 123456789; 2 ^ 1024 - 2 ^ 971]
  = map (fun n => Binary64.float n (-10))
        [1024; 1536; 1024 ^ 6; 123456789; 2 ^ 1024 - 2 ^ 971].
Proof. vm_compute; reflexivity. Qed.

(** *** The loop and its reading *)

Local Open Scope string_scope.

(** The string that is returned is the reading, formatted. *)
Lemma convert_loop_reading (rest : list string) :
  forall (i : nat) (num : number) (j : nat) (num' : number),
    reading_loop rest i num = Some (j, num') ->
    exists u,
      nth_error rest (j - i) = Some u
      /\ (i <= j)%nat
      /\ lt num' 1024%Q = true
      /\ convert_loop rest num true = Return u
      /\ convert_loop rest num false
         = match format_3_1f num' with
           | Ok s => Return (s ++ " " ++ u)
           | Err e => Raise e
           end.
Proof.
  induction rest as [|unit rest IH]; intros i num j num' H; cbn in H.
  - discriminate.
  - cbn [convert_loop]. destruct (lt num 1024%Q) eqn:Hlt.
    + injection H as <- <-. exists unit.
      rewrite Nat.sub_diag. auto.
    + destruct (truediv num 1024%Q) as [num1|e]; [|discriminate].
      destruct (IH _ _ _ _ H) as (u & Hu & Hle & Hlt' & Ht & Hf).
      exists u. replace (j - i)%nat with (S (j - S i)) by lia.
      cbn [nth_error]. repeat split; auto. lia.
Qed.

(** Without a reading no string is returned. *)
Lemma convert_loop_no_reading (rest : list string) :
  forall (i : nat) (num : number) (unit_only : bool),
    reading_loop rest i num = None ->
    forall s, convert_loop rest num unit_only <> Return s.
Proof.
  induction rest as [|unit rest IH]; intros i num uo H s; cbn in H |- *.
  - discriminate.
  - destruct (lt num 1024%Q); [discriminate|].
    destruct (truediv num 1024%Q) as [num1|e]; [|discriminate].
    now apply (IH (S i)).
Qed.

Lemma lt_spec (num : number) (c : Q) :
  lt num c = true <-> (value num < c)%Q.
Proof.
  unfold lt. rewrite Qlt_alt.
  destruct (value num ?= c)%Q; split; congruence.
Qed.

Lemma lt_false (num : number) (c : Q) :
  lt num c = false <-> (c <= value num)%Q.
Proof.
  rewrite <- Bool.not_true_iff_false, lt_spec. split.
  - apply Qnot_lt_le.
  - apply Qle_not_lt.
Qed.

(** Once the number is a float, a larger one never reads lower. *)
Lemma reading_loop_mono (rest : list string) :
  forall (i : nat) (x y : Q) (ia ib : nat) (na nb : number),
    (x <= y)%Q ->
    reading_loop rest i (PyFloat x) = Some (ia, na) ->
    reading_loop rest i (PyFloat y) = Some (ib, nb) ->
    (ia < ib)%nat \/ (ia = ib /\ (value na <= value nb)%Q).
Proof.
  induction rest as [|unit rest IH]; intros i x y ia ib na nb Hxy Ha Hb;
    cbn in Ha, Hb.
  - discriminate.
  - destruct (lt (PyFloat x) 1024%Q) eqn:Hx;
    destruct (lt (PyFloat y) 1024%Q) eqn:Hy.
    + injection Ha as <- <-. injection Hb as <- <-. right. auto.
    + injection Ha as <- <-.
      destruct (convert_loop_reading _ _ _ _ _ Hb) as (_ & _ & Hle & _).
      left. lia.
    + apply lt_spec in Hy. apply lt_false in Hx. cbn in Hx, Hy.
      exfalso. apply (Qlt_irrefl 1024%Q).
      eapply Qle_lt_trans; [apply Hx|]. eapply Qle_lt_trans; eassumption.
    + eapply IH; [|eassumption|eassumption].
      apply Qmult_le_compat_r; [assumption|]. now compute.
Qed.

Lemma float_of_int_nonneg (n : Z) (x : Q) :
  (0 <= n)%Z -> float_of_int n = Ok x -> x = inject_Z (round_significand n).
Proof.
  intros Hn. unfold float_of_int. rewrite Z.abs_eq by assumption.
  destruct (2 ^ 1024 <=? round_significand n)%Z; [discriminate|].
  intros [= <-]. f_equal.
  destruct (Z.eq_dec n 0) as [->|Hnz]; [reflexivity|].
  rewrite Z.sgn_pos by lia. lia.
Qed.

(** A larger int never reads lower than a smaller one. *)
Lemma reading_loop_mono_int (remaining : list string) (i : nat) (a b : Z)
      (ia ib : nat) (na nb : number) :
  (a <= b)%Z ->
  reading_loop remaining i (PyInt a) = Some (ia, na) ->
  reading_loop remaining i (PyInt b) = Some (ib, nb) ->
  (ia < ib)%nat \/ (ia = ib /\ (value na <= value nb)%Q).
Proof.
  intros Hab. destruct remaining as [|unit rest]; [discriminate|].
  cbn [reading_loop].
  destruct (lt (PyInt a) 1024%Q) eqn:Ha; destruct (lt (PyInt b) 1024%Q) eqn:Hb.
  - intros [= <- <-] [= <- <-]. right. split; [reflexivity|].
    cbn. now rewrite <- Zle_Qle.
  - intros [= <- <-] Hrb.
    destruct (truediv (PyInt b) 1024%Q) as [nb'|]; [|discriminate].
    destruct (convert_loop_reading _ _ _ _ _ Hrb) as (_ & _ & Hle & _).
    left. lia.
  - apply lt_spec in Hb. apply lt_false in Ha. cbn in Ha, Hb.
    change 1024%Q with (inject_Z 1024) in Ha, Hb.
    rewrite <- Zle_Qle in Ha. rewrite <- Zlt_Qlt in Hb. lia.
  - apply lt_false in Ha. cbn in Ha.
    change 1024%Q with (inject_Z 1024) in Ha. rewrite <- Zle_Qle in Ha.
    unfold truediv. cbn [to_float].
    destruct (float_of_int a) as [x|] eqn:Fa; [|discriminate].
    destruct (float_of_int b) as [y|] eqn:Fb; [|discriminate].
    apply float_of_int_nonneg in Fa; [|lia].
    apply float_of_int_nonneg in Fb; [|lia].
    cbn [bind]. apply reading_loop_mono.
    apply Qmult_le_compat_r; [|now compute].
    subst x y. rewrite <- Zle_Qle. apply round_significand_mono. lia.
Qed.

(** *** Where the conversion to float overflows *)

Lemma float_of_int_overflow (n : Z) :
  float_of_int n = Err OverflowError <-> (2 ^ 1024 - 2 ^ 970 <= Z.abs n)%Z.
Proof.
  unfold float_of_int.
  assert (Hlast : (round_significand (2 ^ 1024 - 2 ^ 970 - 1) < 2 ^ 1024)%Z)
    by (apply Z.ltb_lt; vm_compute; reflexivity).
  assert (Hfirst : (2 ^ 1024 <= round_significand (2 ^ 1024 - 2 ^ 970))%Z)
    by (apply Z.leb_le; vm_compute; reflexivity).
  assert (Hpos : (0 <= 2 ^ 1024 - 2 ^ 970 - 1)%Z)
    by (apply Z.leb_le; vm_compute; reflexivity).
  revert Hlast Hfirst Hpos.
  generalize (2 ^ 1024 - 2 ^ 970)%Z. intros T.
  generalize (2 ^ 1024)%Z. intros M Hlast Hfirst Hpos.
  pose proof (Z.abs_nonneg n) as Hn.
  destruct (Z.leb_spec M (round_significand (Z.abs n))) as [Hov|Hok];
    split; try reflexivity; try discriminate.
  - intros _.
    destruct (Z.le_gt_cases T (Z.abs n)) as [|Hlt]; [assumption|exfalso].
    pose proof (round_significand_mono (Z.abs n) (T - 1) ltac:(lia)). lia.
  - intros Hbig. exfalso.
    pose proof (round_significand_mono T (Z.abs n) ltac:(lia)). lia.
Qed.

(** *** Where the loop runs out of units *)

Lemma reading_loop_float (rest : list string) :
  forall (i : nat) (x : Q) (j : nat) (num : number),
    reading_loop rest i (PyFloat x) = Some (j, num) ->
    exists y, num = PyFloat y.
Proof.
  induction rest as [|unit rest IH]; intros i x j num H; cbn in H.
  - discriminate.
  - destruct (lt (PyFloat x) 1024%Q).
    + injection H as _ <-. now exists x.
    + eapply IH; eassumption.
Qed.

Lemma scale_step (p : Z) :
  (inject_Z (1024 * p) == 1024 * inject_Z p)%Q.
Proof. now rewrite inject_Z_mult. Qed.

Lemma reading_loop_none (rest : list string) :
  forall (i : nat) (x : Q),
    (inject_Z (1024 ^ Z.of_nat (List.length rest)) <= x)%Q ->
    reading_loop rest i (PyFloat x) = None.
Proof.
  induction rest as [|unit rest IH]; intros i x Hx; cbn [reading_loop].
  - reflexivity.
  - cbn [List.length] in Hx.
    rewrite Nat2Z.inj_succ, Z.pow_succ_r, scale_step in Hx by lia.
    assert (Hp : (1 <= inject_Z (1024 ^ Z.of_nat (List.length rest)))%Q).
    { change 1%Q with (inject_Z 1). rewrite <- Zle_Qle.
      pose proof (Z.pow_pos_nonneg 1024 (Z.of_nat (List.length rest))
                    ltac:(lia) ltac:(lia)). lia. }
    assert (Hge : lt (PyFloat x) 1024%Q = false).
    { apply lt_false. cbn. lra. }
    rewrite Hge. cbn. apply IH.
    apply Qle_shift_div_l; [reflexivity|]. lra.
Qed.

Lemma reading_loop_cons (unit : string) (rest : list string) (i : nat)
      (num : number) :
  reading_loop (unit :: rest) i num
  = if lt num 1024%Q then Some (i, num)
    else match truediv num 1024%Q with
         | Ok num' => reading_loop rest (S i) num'
         | Err _ => None
         end.
Proof. reflexivity. Qed.

Lemma reading_loop_some (rest : list string) :
  forall (unit : string) (i : nat) (x : Q),
    (x < inject_Z (1024 ^ Z.of_nat (S (List.length rest))))%Q ->
    exists j y, reading_loop (unit :: rest) i (PyFloat x) = Some (j, PyFloat y).
Proof.
  induction rest as [|unit' rest IH]; intros unit i x Hx;
    rewrite reading_loop_cons.
  - assert (Hlt : lt (PyFloat x) 1024%Q = true) by (apply lt_spec; exact Hx).
    rewrite Hlt. now exists i, x.
  - destruct (lt (PyFloat x) 1024%Q) eqn:Hlt; [now exists i, x|].
    cbn [truediv to_float bind]. apply IH.
    cbn [List.length] in Hx.
    rewrite (Nat2Z.inj_succ (S _)), Z.pow_succ_r, scale_step in Hx by lia.
    apply Qlt_shift_div_r; [reflexivity|]. lra.
Qed.

(** From [1024^6 - 64] on, an int is converted to a float of at least
    [1024^6] and the six units do not suffice. *)
Lemma reading_none_from_exbibyte (n : Z) :
  (1024 ^ 6 - 64 <= n)%Z -> reading (PyInt n) = None.
Proof.
  intros Hn. unfold reading, units. rewrite reading_loop_cons.
  assert (Hge : lt (PyInt n) 1024%Q = false).
  { apply lt_false. cbn. change 1024%Q with (inject_Z 1024).
    rewrite <- Zle_Qle. lia. }
  rewrite Hge. unfold truediv. cbn [to_float].
  destruct (float_of_int n) as [x|] eqn:Fn; [|reflexivity].
  apply float_of_int_nonneg in Fn; [|lia]. cbn [bind].
  apply reading_loop_none. cbn [List.length].
  apply Qle_shift_div_l; [reflexivity|].
  assert (Hr : (1024 ^ 6 <= round_significand n)%Z).
  { change (1024 ^ 6)%Z with (round_significand (1024 ^ 6 - 64)).
    apply round_significand_mono. lia. }
  subst x. change 1024%Q with (inject_Z 1024). rewrite <- inject_Z_mult.
  rewrite <- Zle_Qle. exact Hr.
Qed.

Lemma convert_bytes_no_string_from_exbibyte (n : Z) (unit_only : bool) :
  (1024 ^ 6 - 64 <= n)%Z ->
  forall s, convert_bytes (PyInt n) unit_only <> Return s.
Proof.
  intros Hn. apply (convert_loop_no_reading units 0%nat).
  now apply reading_none_from_exbibyte.
Qed.

(** Below that bound a non-negative int always gets its string. *)
Lemma convert_bytes_string_below_exbibyte (n : Z) (unit_only : bool) :
  (0 <= n < 1024 ^ 6 - 64)%Z ->
  exists s, convert_bytes (PyInt n) unit_only = Return s.
Proof.
  intros [Hn Hlt].
  assert (Hread : exists j num y,
             reading (PyInt n) = Some (j, num)
             /\ format_3_1f num = Ok (fixed_3_1f y)).
  { unfold reading, units. rewrite reading_loop_cons.
    destruct (lt (PyInt n) 1024%Q) eqn:Hsmall.
    - exists 0%nat, (PyInt n), (inject_Z n). split; [reflexivity|].
      apply lt_spec in Hsmall. cbn in Hsmall.
      change 1024%Q with (inject_Z 1024) in Hsmall.
      rewrite <- Zlt_Qlt in Hsmall.
      unfold format_3_1f. cbn [to_float].
      rewrite float_of_int_small; [reflexivity|].
      assert (1024 < 2 ^ 53)%Z by reflexivity. lia.
    - unfold truediv. cbn [to_float].
      assert (Hr : (round_significand n < 1024 ^ 6)%Z).
      { assert (Hr : (round_significand n
                      <= round_significand (1024 ^ 6 - 65))%Z)
          by (apply round_significand_mono; lia).
        assert (round_significand (1024 ^ 6 - 65) < 1024 ^ 6)%Z
          by reflexivity.
        lia. }
      unfold float_of_int. rewrite Z.abs_eq by assumption.
      destruct (Z.leb_spec (2 ^ 1024) (round_significand n)) as [Hov|_].
      { assert (1024 ^ 6 < 2 ^ 1024)%Z by reflexivity. lia. }
      cbn [bind].
      destruct (reading_loop_some ["MB"; "GB"; "TB"; "PB"] "KB" 1%nat
                  (inject_Z (Z.sgn n * round_significand n) / 1024)%Q)
        as (j & y & Hj).
      + apply Qlt_shift_div_r; [reflexivity|].
        change 1024%Q with (inject_Z 1024). rewrite <- inject_Z_mult.
        rewrite <- Zlt_Qlt. cbn [List.length].
        change (1024 ^ Z.of_nat 5 * 1024)%Z with (1024 ^ 6)%Z.
        destruct (Z.eq_dec n 0) as [->|Hnz]; [reflexivity|].
        rewrite Z.sgn_pos by lia. lia.
      + exists j, (PyFloat y), y. split; [exact Hj|reflexivity]. }
  destruct Hread as (j & num & y & Hread & Hfmt).
  destruct (convert_loop_reading _ _ _ _ _ Hread) as (u & _ & _ & _ & Ht & Hf).
  unfold convert_bytes. destruct unit_only.
  - now exists u.
  - rewrite Hf, Hfmt. eauto.
Qed.

Lemma to_float_in_range (num : number) :
  float_range num -> exists x, to_float num = Ok x.
Proof.
  destruct num as [n|x]; cbn [float_range to_float]; [|now exists x].
  intros Hn. destruct (float_of_int n) as [x|e] eqn:Fn; [now exists x|].
  exfalso. apply (Z.lt_irrefl (Z.abs n)).
  eapply Z.lt_le_trans; [exact Hn|].
  apply float_of_int_overflow. rewrite Fn. f_equal.
  unfold float_of_int in Fn.
  destruct (2 ^ 1024 <=? round_significand (Z.abs n))%Z; congruence.
Qed.

(** *** The claims on [convert_bytes] *)

(** C3 (defect of the code).  [convert_bytes] is annotated and documented
    to return a string for a byte count, yet at the non-negative input
    [1024^6] the loop runs through all six units and the call ends
    without a [return]: the result is [None], with either value of
    [unit_only]. *)
Theorem convert_bytes_none_at_exbibyte :
  convert_bytes (PyInt (1024 ^ 6)) false = ReturnNone
  /\ convert_bytes (PyInt (1024 ^ 6)) true = ReturnNone.
Proof. split; vm_compute; reflexivity. Qed.

(** C4, as stated, fails at [k = 6]: there is no seventh unit and
    [convert_bytes(1024^6)] is not a string of the form "1.0 <unit>". *)
Lemma convert_bytes_boundary_fails_at_6 :
  ~ (exists u, convert_bytes (PyInt (1024 ^ Z.of_nat 6)) false
               = Return ("1.0 " ++ u)).
Proof. intros [u Hu]. vm_compute in Hu. discriminate. Qed.

Lemma unit_boundary (k : nat) :
  (k <= 5)%nat ->
  convert_bytes (PyInt (1024 ^ Z.of_nat k)) false
  = Return ("1.0 " ++ nth k units "")
  /\ convert_bytes (PyInt (1024 ^ Z.of_nat k)) true = Return (nth k units "").
Proof.
  intros Hk.
  do 6 (destruct k as [|k]; [split; vm_compute; reflexivity|]).
  lia.
Qed.

Lemma reading_output (n : Z) (i : nat) (num : number) :
  reading (PyInt n) = Some (i, num) ->
  convert_bytes (PyInt n) true = Return (nth i units "")
  /\ convert_bytes (PyInt n) false
     = match format_3_1f num with
       | Ok s => Return (s ++ " " ++ nth i units "")
       | Err e => Raise e
       end.
Proof.
  intros H. unfold convert_bytes.
  destruct (convert_loop_reading _ _ _ _ _ H) as (u & Hu & _ & _ & Ht & Hf).
  rewrite Nat.sub_0_r in Hu.
  rewrite (nth_error_nth _ _ "" Hu). auto.
Qed.

(** *** The digits shown *)

Lemma round_half_even_cases (q : Q) :
  round_half_even q = Qfloor q \/ round_half_even q = (Qfloor q + 1)%Z.
Proof.
  unfold round_half_even.
  destruct (q - inject_Z (Qfloor q) ?= 1 # 2)%Q; auto.
  destruct (Z.even (Qfloor q)); auto.
Qed.

Lemma round_half_even_mono (p q : Q) :
  (p <= q)%Q -> (round_half_even p <= round_half_even q)%Z.
Proof.
  intros Hpq. pose proof (Qfloor_resp_le _ _ Hpq) as Hf.
  destruct (Z.eq_dec (Qfloor p) (Qfloor q)) as [Heq|Hne].
  - unfold round_half_even. rewrite <- Heq.
    destruct (Qcompare_spec (p - inject_Z (Qfloor p)) (1 # 2)) as [Hp|Hp|Hp];
    destruct (Qcompare_spec (q - inject_Z (Qfloor p)) (1 # 2)) as [Hq|Hq|Hq];
    destruct (Z.even (Qfloor p)); try lia; exfalso; lra.
  - destruct (round_half_even_cases p) as [-> | ->];
    destruct (round_half_even_cases q) as [-> | ->]; lia.
Qed.

Lemma round_half_even_eq (p q : Q) :
  (p == q)%Q -> round_half_even p = round_half_even q.
Proof.
  intros E. apply Z.le_antisymm; apply round_half_even_mono; rewrite E;
    apply Qle_refl.
Qed.

Lemma round_half_even_Z (m : Z) : round_half_even (inject_Z m) = m.
Proof.
  unfold round_half_even. rewrite Qfloor_Z.
  destruct (Qcompare_spec (inject_Z m - inject_Z m) (1 # 2)) as [H|H|H];
    [exfalso; lra | reflexivity | exfalso; lra].
Qed.

Lemma tenths_mono (x y : Q) :
  (0 <= x)%Q -> (x <= y)%Q -> (tenths x <= tenths y)%Z.
Proof.
  intros Hx Hxy. unfold tenths. apply round_half_even_mono.
  rewrite !Qabs_pos by lra. apply Qmult_le_compat_r; [assumption|].
  now compute.
Qed.

Lemma reading_loop_nonneg (rest : list string) :
  forall (i : nat) (x : Q) (j : nat) (num : number),
    (0 <= x)%Q ->
    reading_loop rest i (PyFloat x) = Some (j, num) ->
    (0 <= value num)%Q.
Proof.
  induction rest as [|unit rest IH]; intros i x j num Hx H; cbn in H.
  - discriminate.
  - destruct (lt (PyFloat x) 1024%Q).
    + injection H as _ <-. exact Hx.
    + eapply IH; [|eassumption].
      apply Qle_shift_div_l; [reflexivity|]. lra.
Qed.

(** For a byte count the number that is formatted is non-negative and
    has a float: the string shows its value. *)
Lemma reading_of_byte_count (n : Z) (i : nat) (num : number) :
  (0 <= n)%Z ->
  reading (PyInt n) = Some (i, num) ->
  (0 <= value num)%Q /\ format_3_1f num = Ok (fixed_3_1f (value num)).
Proof.
  intros Hn. unfold reading, units. rewrite reading_loop_cons.
  destruct (lt (PyInt n) 1024%Q) eqn:Hsmall.
  - intros [= <- <-]. cbn [value]. split.
    + change 0%Q with (inject_Z 0). now rewrite <- Zle_Qle.
    + apply lt_spec in Hsmall. cbn in Hsmall.
      change 1024%Q with (inject_Z 1024) in Hsmall.
      rewrite <- Zlt_Qlt in Hsmall.
      unfold format_3_1f. cbn [to_float].
      rewrite float_of_int_small; [reflexivity|].
      assert (1024 < 2 ^ 53)%Z by reflexivity. lia.
  - unfold truediv. cbn [to_float].
    destruct (float_of_int n) as [x|] eqn:Fn; [|discriminate].
    apply float_of_int_nonneg in Fn; [|assumption]. cbn [bind]. intros H.
    destruct (reading_loop_float _ _ _ _ _ H) as [y ->]. split; [|reflexivity].
    eapply reading_loop_nonneg; [|exact H].
    apply Qle_shift_div_l; [reflexivity|]. rewrite Qmult_0_l. subst x.
    change 0%Q with (inject_Z 0). rewrite <- Zle_Qle.
    change 0%Z with (round_significand 0).
    apply round_significand_mono. lia.
Qed.

(** C4, amended.  For [k] from 0 to 5, [convert_bytes(1024^k)] is
    "1.0 " followed by the unit at position [k] of
    ['bytes', 'KB', 'MB', 'GB', 'TB', 'PB'] (and that unit alone with
    [unit_only]).  The conversion is monotonic: when two byte counts
    [0 <= a <= b] both get a string, made of the units at [ia] and [ib]
    and of the values [na] and [nb], the unit of [a] comes before that of
    [b], or they share the unit and the value of [a], exact or as shown
    with one decimal, is at most that of [b]. *)
Theorem convert_bytes_boundaries_and_monotone
        (k : nat) (a b : Z) (ia ib : nat) (na nb : number) :
  (k <= 5)%nat ->
  (0 <= a <= b)%Z ->
  reading (PyInt a) = Some (ia, na) ->
  reading (PyInt b) = Some (ib, nb) ->
  (convert_bytes (PyInt (1024 ^ Z.of_nat k)) false
   = Return ("1.0 " ++ nth k units "")
   /\ convert_bytes (PyInt (1024 ^ Z.of_nat k)) true
      = Return (nth k units ""))
  /\ (convert_bytes (PyInt a) true = Return (nth ia units "")
      /\ convert_bytes (PyInt b) true = Return (nth ib units "")
      /\ convert_bytes (PyInt a) false
         = Return (fixed_3_1f (value na) ++ " " ++ nth ia units "")
      /\ convert_bytes (PyInt b) false
         = Return (fixed_3_1f (value nb) ++ " " ++ nth ib units ""))
  /\ ((ia < ib)%nat
      \/ (ia = ib /\ (value na <= value nb)%Q
          /\ (tenths (value na) <= tenths (value nb))%Z)).
Proof.
  intros Hk [Ha0 Hab] Ha Hb. split; [now apply unit_boundary|].
  destruct (reading_output _ _ _ Ha) as [Hta Hfa].
  destruct (reading_output _ _ _ Hb) as [Htb Hfb].
  destruct (reading_of_byte_count a ia na Ha0 Ha) as [Hna Hsa].
  destruct (reading_of_byte_count b ib nb ltac:(lia) Hb) as [_ Hsb].
  rewrite Hsa in Hfa. rewrite Hsb in Hfb. split; [auto|].
  destruct (reading_loop_mono_int _ _ _ _ _ _ _ _ Hab Ha Hb) as [Hlt|[-> Hle]].
  - now left.
  - right. repeat split; [assumption|]. now apply tenths_mono.
Qed.

Lemma convert_bytes_boundaries_and_monotone_witness :
  convert_bytes (PyInt (1024 ^ 3)) false = Return "1.0 GB"
  /\ convert_bytes (PyInt 1536) false = Return "1.5 KB"
  /\ convert_bytes (PyInt 3072) false = Return "3.0 KB"
  /\ ((1 < 1)%nat
      \/ (1%nat = 1%nat /\ (1536 # 1024 <= 3072 # 1024)%Q
          /\ (tenths (1536 # 1024) <= tenths (3072 # 1024))%Z)).
Proof.
  destruct (convert_bytes_boundaries_and_monotone
              3 1536 3072 1 1 (PyFloat (1536 # 1024)) (PyFloat (3072 # 1024)))
    as ((Hk & _) & (_ & _ & Ha & Hb) & Hm).
  - lia.
  - lia.
  - vm_compute; reflexivity.
  - vm_compute; reflexivity.
  - split; [exact Hk|]. split; [exact Ha|]. split; [exact Hb|exact Hm].
Defined.

(** C10, as stated, fails at the negative int [-2^1024]: formatting it
    with [3.1f] needs its float, and the conversion overflows. *)
Lemma convert_bytes_negative_overflow :
  convert_bytes (PyInt (- 2 ^ 1024)) false = Raise OverflowError.
Proof. vm_compute; reflexivity. Qed.

(** C10, amended.  [convert_bytes] does not check that [num] is
    non-negative.  For every negative [num] the first turn of the loop
    returns: with [unit_only] the result is 'bytes'; otherwise, when
    [num] is a float or an int of magnitude below [2^1024 - 2^970], the
    result is [num] formatted with [3.1f] followed by " bytes". *)
Theorem convert_bytes_negative (num : number) :
  (value num < 0)%Q ->
  reading num = Some (0%nat, num)
  /\ convert_bytes num true = Return "bytes"
  /\ (float_range num ->
      exists x, to_float num = Ok x
                /\ convert_bytes num false
                   = Return (fixed_3_1f x ++ " bytes")).
Proof.
  intros Hneg.
  assert (Hlt : lt num 1024%Q = true).
  { apply lt_spec. eapply Qlt_trans; [exact Hneg|reflexivity]. }
  unfold reading, convert_bytes, units.
  rewrite reading_loop_cons. cbn [convert_loop]. rewrite Hlt.
  repeat split.
  intros Hr. destruct (to_float_in_range num Hr) as [x Hx].
  exists x. split; [exact Hx|].
  unfold format_3_1f. rewrite Hx. reflexivity.
Qed.

Lemma convert_bytes_negative_witness :
  convert_bytes (PyInt (-7)) true = Return "bytes"
  /\ convert_bytes (PyInt (-7)) false = Return "-7.0 bytes".
Proof.
  destruct (convert_bytes_negative (PyInt (-7))) as (_ & Ht & Hf).
  - reflexivity.
  - split; [exact Ht|].
    destruct Hf as (x & Hx & Hf).
    + cbn. reflexivity.
    + rewrite Hf. vm_compute in Hx. injection Hx as <-.
      vm_compute. reflexivity.
Defined.

End ConvertBytes.

(** ** The tables of pipeline_data_size.py and their running sum *)

Section PipelineTables.

Import PipelineDataSize.
Local Open Scope Z_scope.

Lemma zip4_length {A B C D : Type} (la : list A) :
  forall (lb : list B) (lc : list C) (ld : list D),
    List.length (zip4 la lb lc ld)
    = Nat.min (Nat.min (List.length la) (List.length lb))
              (Nat.min (List.length lc) (List.length ld)).
Proof.
  induction la as [|a la IH]; intros [|b lb] [|c lc] [|d ld]; cbn;
    try reflexivity; try lia.
  now rewrite IH.
Qed.

Lemma zip4_row_x (ys : list nat) :
  forall (xs : list Z) (cs ls : list string),
    map row_x (zip4 ys xs cs ls)
    = firstn (List.length (zip4 ys xs cs ls)) xs.
Proof.
  induction ys as [|y ys IH]; intros [|x xs] [|c cs] [|l ls]; cbn;
    try reflexivity.
  now rewrite IH.
Qed.

Lemma zip4_row_y (ys : list nat) :
  forall (xs : list Z) (cs ls : list string),
    map row_y (zip4 ys xs cs ls)
    = firstn (List.length (zip4 ys xs cs ls)) ys.
Proof.
  induction ys as [|y ys IH]; intros [|x xs] [|c cs] [|l ls]; cbn;
    try reflexivity.
  now rewrite IH.
Qed.

Lemma nth_firstn_below {A : Type} (d : A) (l : list A) :
  forall n i : nat, (i < n)%nat -> nth i (firstn n l) d = nth i l d.
Proof.
  induction l as [|a l IH]; intros n i Hi.
  - now rewrite firstn_nil.
  - destruct n as [|n]; [lia|]. destruct i as [|i]; [reflexivity|].
    cbn [firstn nth]. apply IH. lia.
Qed.

(** The loop adds the entries one by one: after the rows [rows] the
    total has grown by their sum, and the marker drawn at turn [i]
    sits at the sum of the entries up to [i]. *)
Lemma plot_loop_from (rows : list (nat * Z * string * string)) :
  forall st : loop_state,
    let st' := fold_left loop_body rows st in
    x_cumsum st' = x_cumsum st + sum (map row_x rows)
    /\ cumulative_markers st'
       = cumulative_markers st
         ++ map (fun i => (x_cumsum st + sum (firstn (S i) (map row_x rows)),
                           nth i (map row_y rows) 0%nat))
                (seq 0 (List.length rows)).
Proof.
  induction rows as [|[[[y x] c] l] rows IH]; intros st; cbn zeta.
  - cbn. split; [lia|]. now rewrite app_nil_r.
  - cbn [fold_left]. destruct (IH (loop_body st (y, x, c, l))) as [Hx Hm].
    cbn zeta in Hx, Hm. rewrite Hx, Hm. cbn [loop_body x_cumsum cumulative_markers].
    split.
    + cbn [map row_x sum fold_right]. unfold sum. lia.
    + rewrite <- app_assoc. f_equal.
      cbn [List.length]. rewrite <- cons_seq, <- seq_shift.
      cbn [app map]. rewrite map_map. f_equal.
      * cbn. f_equal. lia.
      * apply map_ext. intros i. cbn [map row_x row_y nth firstn sum fold_right].
        f_equal. unfold sum. lia.
Qed.

(** C6.  Folding [x_cumsum += x] over the byte_size table, which has 15
    entries, ends on the sum of all of them, and the cumulative value
    drawn at step [i] is the sum of the entries 0 through [i].  This
    holds for the loop of lines 131 to 139 whatever process numbers it
    is given, as long as there are enough of them for the [zip] not to
    stop short of the table's end. *)
Theorem cumulative_usage_is_prefix_sum (process_id : list nat) :
  (List.length byte_size <= List.length process_id)%nat ->
  let st := plot_loop (zip4 process_id byte_size colors label) in
  List.length byte_size = 15%nat
  /\ x_cumsum st = sum byte_size
  /\ cumulative_markers st
     = map (fun i => (sum (firstn (S i) byte_size), nth i process_id 0%nat))
           (seq 0 15).
Proof.
  intros Hlen. cbn zeta. split; [reflexivity|].
  assert (Hrows : List.length (zip4 process_id byte_size colors label) = 15%nat).
  { rewrite zip4_length.
    replace (List.length colors) with 15%nat by reflexivity.
    replace (List.length label) with 15%nat by reflexivity.
    replace (List.length byte_size) with 15%nat in * by reflexivity. lia. }
  destruct (plot_loop_from (zip4 process_id byte_size colors label)
              {| x_cumsum := 0; cumulative_markers := [] |}) as [Hx Hm].
  cbn zeta in Hx, Hm. unfold plot_loop.
  rewrite Hx, Hm, zip4_row_x, zip4_row_y, Hrows.
  change (firstn 15 byte_size) with byte_size.
  cbn [x_cumsum cumulative_markers app]. split; [lia|].
  apply map_ext_in. intros i Hi. apply in_seq in Hi.
  rewrite nth_firstn_below by lia. f_equal.
Qed.

Lemma cumulative_usage_is_prefix_sum_witness :
  let st := plot_loop (zip4 (arange 15) byte_size colors label) in
  List.length byte_size = 15%nat
  /\ x_cumsum st = sum byte_size
  /\ cumulative_markers st
     = map (fun i => (sum (firstn (S i) byte_size), nth i (arange 15) 0%nat))
           (seq 0 15).
Proof.
  apply (cumulative_usage_is_prefix_sum (arange 15)).
  vm_compute. lia.
Defined.

(** With 15 process numbers the [zip] keeps every entry of the three
    tables. *)
Lemma zip4_keeps_tables (process_id : list nat) :
  List.length process_id = 15%nat ->
  let rows := zip4 process_id byte_size colors label in
  List.length rows = 15%nat
  /\ map row_y rows = process_id /\ map row_x rows = byte_size
  /\ map row_c rows = colors /\ map row_l rows = label.
Proof.
  intros Hlen.
  do 15 (destruct process_id as [|? process_id]; [discriminate Hlen|]).
  destruct process_id; [|discriminate Hlen].
  cbv zeta. repeat split.
Qed.

(** The totals stay far below [2^63]: reading the table as an int64
    array would give the same sums. *)
Lemma cumulative_usage_fits_int64 :
  forallb (fun i => let total := sum (firstn (S i) byte_size) in
                    (0 <=? total) && (total <? 2 ^ 63))
          (seq 0 (List.length byte_size))
  = true.
Proof. vm_compute. reflexivity. Qed.

End PipelineTables.

(** ** Running the scripts *)

Section RunningTheScripts.

Import Py Script Scripts.
Local Open Scope string_scope.

(** The [try] statement of [pipeline_data_size.py] and
    [cosmological_horizon.py] has an [else] clause and no [except]
    clause: it is not a statement of the language. *)
Lemma try_else_rejected : parses try_else = false.
Proof. reflexivity. Qed.

Lemma try_except_accepted : parses try_except = true.
Proof. reflexivity. Qed.

(** Each of the last four [plt.annotate] calls of
    [cosmological_horizon.py] closes a bracket that was never opened. *)
Lemma annotate_unbalanced :
  brackets_balanced annotate_sub_horizon = false
  /\ brackets_balanced annotate_no_crossing = false
  /\ brackets_balanced annotate_early_times = false
  /\ brackets_balanced annotate_late_times = false.
Proof. repeat split; vm_compute; reflexivity. Qed.

Lemma run_pipeline_data_size (env : environment) :
  run env pipeline_data_size = rejected.
Proof. unfold run. now replace (compiles pipeline_data_size) with false. Qed.

Lemma run_cosmological_horizon (env : environment) :
  run env cosmological_horizon = rejected.
Proof. unfold run. now replace (compiles cosmological_horizon) with false. Qed.

Lemma run_cosmological_parameters (env : environment) :
  run env cosmological_parameters
  = {| exit_status := Normal;
       printed := if mem mnras (style_sheets env) then [] else [notice];
       written := ["cosmological_parameters.pdf"] |}.
Proof.
  destruct env as [sheets]. vm_compute.
  match goal with
  | |- context [match ?b with true => _ | false => _ end] => destruct b
  end; reflexivity.
Qed.

(** Were the statements of [pipeline_data_size.py] run one by one all the
    same, with the style sheet in place: line 91 reads [byte_size] five
    lines before the table is assigned, and the notice of a missing
    sheet has been printed although the sheet was found. *)
Lemma pipeline_data_size_unbound_byte_size :
  let '(st, status) := exec_block with_sheet pipeline_data_size initial in
  status = Uncaught (NameError "byte_size")
  /\ stdout st = [notice] /\ files st = [].
Proof. vm_compute. repeat split. Qed.

(** The [try ... else] statement, were it run, leaves a missing style
    sheet uncaught and prints nothing. *)
Lemma try_else_missing_sheet :
  let '(st, status) :=
    exec without_sheet try_else (bind_names ["plt"] initial) in
  status = Uncaught OSError /\ stdout st = [].
Proof. vm_compute. split; reflexivity. Qed.

(** C1 (defect of the code).  Of the three scripts only
    [cosmological_parameters.py] runs to completion and writes its one
    file; [pipeline_data_size.py] and [cosmological_horizon.py] are
    stopped by a syntax error before their first statement and write
    nothing. *)
Theorem two_scripts_do_not_run (env : environment) :
  exit_status (run env pipeline_data_size) = Uncaught SyntaxError
  /\ written (run env pipeline_data_size) = []
  /\ exit_status (run env cosmological_horizon) = Uncaught SyntaxError
  /\ written (run env cosmological_horizon) = []
  /\ exit_status (run env cosmological_parameters) = Normal
  /\ written (run env cosmological_parameters)
     = ["cosmological_parameters.pdf"].
Proof.
  rewrite run_pipeline_data_size, run_cosmological_horizon,
    run_cosmological_parameters.
  repeat split.
Qed.

(** C2 (defect of the code).  With the style sheet missing, only
    [cosmological_parameters.py] prints the fallback notice and goes on
    to write its figure.  The other two scripts spell the handler
    [else:] instead of [except:]: they are rejected with a syntax error
    and print nothing, and their [try] statement, taken by itself, would
    leave the missing sheet uncaught. *)
Theorem fallback_only_in_one_script :
  run without_sheet cosmological_parameters
  = {| exit_status := Normal; printed := [notice];
       written := ["cosmological_parameters.pdf"] |}
  /\ run without_sheet pipeline_data_size = rejected
  /\ run without_sheet cosmological_horizon = rejected
  /\ In try_else pipeline_data_size
  /\ In try_else cosmological_horizon
  /\ parses try_else = false
  /\ snd (exec without_sheet try_else (bind_names ["plt"] initial))
     = Uncaught OSError.
Proof.
  rewrite run_pipeline_data_size, run_cosmological_horizon,
    run_cosmological_parameters.
  repeat split.
  - unfold pipeline_data_size, try_else. cbn [In]. tauto.
  - unfold cosmological_horizon, try_else. cbn [In]. tauto.
Qed.



End RunningTheScripts.

(** ** Rounding to nearest, ties to even *)

Section Rounding.

Import Py Float64.
Local Open Scope Q_scope.

Lemma pow2_pos (z : Z) : 0 < pow2 z.
Proof. apply Qpower_0_lt. reflexivity. Qed.

Lemma pow2_add (a b : Z) : pow2 (a + b) == pow2 a * pow2 b.
Proof. apply Qpower_plus. discriminate. Qed.

Lemma pow2_le (a b : Z) : (a <= b)%Z -> pow2 a <= pow2 b.
Proof. intros H. apply Qpower_le_compat_l; [exact H|discriminate]. Qed.

Lemma pow2_lt_inv (a b : Z) : pow2 a < pow2 b -> (a < b)%Z.
Proof. intros H. apply (Qpower_lt_compat_l_inv 2); [exact H|reflexivity]. Qed.

Lemma pow2_Z (n : Z) : (0 <= n)%Z -> pow2 n == inject_Z (2 ^ n).
Proof. intros H. unfold pow2. now rewrite Zpower_Qpower. Qed.

(** Dividing by a power of two is multiplying by the opposite power. *)
Lemma div_pow2 (q : Q) (a : Z) : q / pow2 a == q * pow2 (- a).
Proof. unfold Qdiv, pow2. now rewrite Qpower_opp. Qed.

Lemma pow2_sub (a b : Z) : pow2 (a - b) == pow2 a / pow2 b.
Proof. rewrite div_pow2, <- pow2_add. reflexivity. Qed.

(** [magnitude] finds the binade of a positive rational. *)
Lemma magnitude_spec (q : Q) :
  0 < q -> pow2 (magnitude q - 1) <= q /\ q < pow2 (magnitude q).
Proof.
  intros Hq. destruct q as [n d].
  assert (Hn : (0 < n)%Z).
  { unfold Qlt in Hq. cbn in Hq. lia. }
  unfold magnitude. cbn [Qnum Qden].
  set (ln := Z.log2 n). set (ld := Z.log2 (Z.pos d)).
  destruct (Z.log2_spec n Hn) as [Hn0 Hn1].
  destruct (Z.log2_spec (Z.pos d) eq_refl) as [Hd0 Hd1].
  fold ln in Hn0, Hn1. fold ld in Hd0, Hd1.
  assert (Hln : (0 <= ln)%Z) by apply Z.log2_nonneg.
  assert (Hld : (0 <= ld)%Z) by apply Z.log2_nonneg.
  assert (Eq : n # d == inject_Z n / inject_Z (Z.pos d)) by apply Qmake_Qdiv.
  assert (Dpos : 0 < inject_Z (Z.pos d)) by reflexivity.
  (* the quotient lies between 2^(k-1) and 2^(k+1), k = ln - ld *)
  assert (Hlow : pow2 (ln - ld - 1) <= n # d).
  { rewrite Eq. apply Qle_shift_div_l; [exact Dpos|].
    replace (ln - ld - 1)%Z with (ln - (ld + 1))%Z by lia.
    rewrite pow2_sub, !pow2_Z by lia.
    unfold Qdiv. rewrite <- Qmult_assoc, (Qmult_comm (/ _)).
    rewrite Qmult_assoc.
    apply Qle_shift_div_r.
    - change 0 with (inject_Z 0). rewrite <- Zlt_Qlt. lia.
    - rewrite <- !inject_Z_mult, <- Zle_Qle. nia. }
  assert (Hhigh : n # d < pow2 (ln - ld + 1)).
  { rewrite Eq. apply Qlt_shift_div_r; [exact Dpos|].
    replace (ln - ld + 1)%Z with (ln + 1 - ld)%Z by lia.
    rewrite pow2_sub, !pow2_Z by lia.
    unfold Qdiv. rewrite <- Qmult_assoc, (Qmult_comm (/ _)).
    rewrite Qmult_assoc.
    apply Qlt_shift_div_l.
    - change 0 with (inject_Z 0). rewrite <- Zlt_Qlt. lia.
    - rewrite <- !inject_Z_mult, <- Zlt_Qlt. nia. }
  destruct (Qle_bool (pow2 (ln - ld)) (n # d)) eqn:Hk.
  - apply Qle_bool_iff in Hk. split; [|exact Hhigh].
    now replace (ln - ld + 1 - 1)%Z with (ln - ld)%Z by lia.
  - split; [exact Hlow|]. apply Qnot_le_lt. intros H.
    apply Qle_bool_iff in H. congruence.
Qed.

Lemma magnitude_mono (p q : Q) :
  0 < p -> p <= q -> (magnitude p <= magnitude q)%Z.
Proof.
  intros Hp Hpq.
  destruct (magnitude_spec p Hp) as [Hp0 _].
  destruct (magnitude_spec q (Qlt_le_trans _ _ _ Hp Hpq)) as [_ Hq1].
  assert (H : pow2 (magnitude p - 1) < pow2 (magnitude q)).
  { eapply Qle_lt_trans; [exact Hp0|]. eapply Qle_lt_trans; eassumption. }
  apply pow2_lt_inv in H. lia.
Qed.

(** Rounding to the grid of step [2^f] keeps the order, and leaves the
    powers of two from [2^f] on as they are. *)
Lemma on_grid_mono (p q : Q) (f : Z) :
  p <= q ->
  inject_Z (round_half_even (p / pow2 f)) * pow2 f
  <= inject_Z (round_half_even (q / pow2 f)) * pow2 f.
Proof.
  intros Hpq. pose proof (pow2_pos f) as Hf.
  apply Qmult_le_compat_r; [|now apply Qlt_le_weak].
  rewrite <- Zle_Qle. apply round_half_even_mono.
  apply Qmult_le_compat_r; [exact Hpq|].
  apply Qlt_le_weak, Qinv_lt_0_compat, Hf.
Qed.

Lemma on_grid_pow2 (a f : Z) :
  (f <= a)%Z ->
  inject_Z (round_half_even (pow2 a / pow2 f)) * pow2 f == pow2 a.
Proof.
  intros Hfa.
  rewrite (round_half_even_eq _ (inject_Z (2 ^ (a - f)))).
  - rewrite round_half_even_Z, <- pow2_Z, <- pow2_add by lia.
    now replace (a - f + f)%Z with a by lia.
  - rewrite <- pow2_sub. apply pow2_Z. lia.
Qed.

Lemma round_pos_upper (q : Q) :
  0 < q -> round_pos q <= pow2 (Z.max (magnitude q) (-1022)).
Proof.
  intros Hq. destruct (magnitude_spec q Hq) as [_ Hhi].
  unfold round_pos. cbv zeta.
  set (e := magnitude q) in *. set (f := fexp e).
  rewrite <- (on_grid_pow2 (Z.max e (-1022)) f) by (unfold f, fexp; lia).
  apply on_grid_mono. apply Qlt_le_weak.
  eapply Qlt_le_trans; [exact Hhi|]. apply pow2_le. lia.
Qed.

Lemma round_pos_lower (q : Q) :
  0 < q -> fexp (magnitude q) = (magnitude q - 53)%Z ->
  pow2 (magnitude q - 1) <= round_pos q.
Proof.
  intros Hq Hf. destruct (magnitude_spec q Hq) as [Hlo _].
  unfold round_pos. cbv zeta. rewrite Hf.
  set (e := magnitude q) in *.
  rewrite <- (on_grid_pow2 (e - 1) (e - 53)) at 1 by lia.
  apply on_grid_mono. exact Hlo.
Qed.

Lemma round_pos_nonneg (q : Q) : 0 <= q -> 0 <= round_pos q.
Proof.
  intros Hq. unfold round_pos. cbv zeta.
  set (f := fexp (magnitude q)). pose proof (pow2_pos f) as Hf.
  apply Qmult_le_0_compat; [|now apply Qlt_le_weak].
  change 0 with (inject_Z 0). rewrite <- Zle_Qle.
  change 0%Z with (round_half_even (inject_Z 0)).
  apply round_half_even_mono.
  apply Qmult_le_0_compat; [exact Hq|].
  apply Qlt_le_weak, Qinv_lt_0_compat, Hf.
Qed.

(** Rounding keeps the order of positive numbers: within one binade
    the grid is the same, and between two binades lies a power of two,
    which is on both grids. *)
Lemma round_pos_mono (p q : Q) :
  0 < p -> p <= q -> round_pos p <= round_pos q.
Proof.
  intros Hp Hpq. pose proof (Qlt_le_trans _ _ _ Hp Hpq) as Hq.
  pose proof (magnitude_mono p q Hp Hpq) as He.
  destruct (Z.eq_dec (fexp (magnitude p)) (fexp (magnitude q))) as [E|N].
  - unfold round_pos. cbv zeta. rewrite E. now apply on_grid_mono.
  - assert (Hf : fexp (magnitude q) = (magnitude q - 53)%Z)
      by (unfold fexp in *; lia).
    eapply Qle_trans; [apply round_pos_upper, Hp|].
    eapply Qle_trans; [|apply round_pos_lower; assumption].
    apply pow2_le. unfold fexp in *. lia.
Qed.

Lemma overflow_mono (u v : Q) :
  u <= v -> le (overflow false u) (overflow false v).
Proof.
  intros Huv. unfold overflow.
  destruct (Qle_bool (pow2 1024) u) eqn:Hu;
    destruct (Qle_bool (pow2 1024) v) eqn:Hv; cbn; auto.
  apply Qle_bool_iff in Hu.
  assert (H : Qle_bool (pow2 1024) v = true)
    by (apply Qle_bool_iff; eapply Qle_trans; eassumption).
  congruence.
Qed.

Lemma round_zero (q : Q) : q == 0 -> round q = Fin 0.
Proof. intros E. unfold round. apply Qeq_alt in E. now rewrite E. Qed.

Lemma round_positive (q : Q) : 0 < q -> round q = overflow false (round_pos q).
Proof. intros H. unfold round. apply Qgt_alt in H. now rewrite H. Qed.

Lemma round_mono (p q : Q) : 0 <= p -> p <= q -> le (round p) (round q).
Proof.
  intros Hp Hpq.
  destruct (Qlt_le_dec 0 p) as [Hp'|Hp'].
  - rewrite !round_positive by (try assumption; eapply Qlt_le_trans; eassumption).
    apply overflow_mono. now apply round_pos_mono.
  - rewrite (round_zero p) by (apply Qle_antisym; assumption).
    destruct (Qlt_le_dec 0 q) as [Hq|Hq].
    + rewrite round_positive by exact Hq. unfold overflow.
      destruct (Qle_bool (pow2 1024) (round_pos q)); cbn; [reflexivity|].
      apply round_pos_nonneg. now apply Qlt_le_weak.
    + rewrite (round_zero q); [apply Qle_refl|].
      apply Qle_antisym; [exact Hq|]. eapply Qle_trans; eassumption.
Qed.

Lemma negative_pos (a : Q) : 0 < a -> negative a = false.
Proof. intros H. unfold negative. apply Qgt_alt in H. now rewrite H. Qed.

Lemma le_round_inf (z : Q) : le (round z) (Inf false).
Proof.
  unfold round, overflow. destruct (z ?= 0); cbn; auto;
    match goal with |- context [Qle_bool ?a ?b] => destruct (Qle_bool a b) end;
    cbn; auto.
Qed.

Lemma div_pos (p d : Q) : 0 < d -> div (Fin p) (Fin d) = round (p / d).
Proof. intros H. unfold div. apply Qgt_alt in H. now rewrite H. Qed.

Lemma quotient_antitone (p d1 d2 : Q) :
  0 <= p -> 0 < d1 -> d1 <= d2 -> 0 <= p / d2 /\ p / d2 <= p / d1.
Proof.
  intros Hp H1 H12. pose proof (Qlt_le_trans _ _ _ H1 H12) as H2. split.
  - apply Qle_shift_div_l; [exact H2|]. now rewrite Qmult_0_l.
  - apply Qle_shift_div_l; [exact H1|].
    unfold Qdiv. rewrite <- Qmult_assoc, (Qmult_comm (/ d2)), Qmult_assoc.
    apply Qle_shift_div_r; [exact H2|].
    rewrite !(Qmult_comm p). apply Qmult_le_compat_r; assumption.
Qed.

(** [x / y] does not rise as the positive divisor [y] grows. *)
Lemma div_antitone (p v : Q) (y1 y2 : float) :
  0 <= p -> 0 < v -> le (Fin v) y1 -> le y1 y2 ->
  le (div (Fin p) y2) (div (Fin p) y1) /\ le (Fin 0) (div (Fin p) y2).
Proof.
  intros Hp Hv H1 H12.
  destruct y1 as [d1|s1|]; [| |contradiction]; cbn [le] in H1.
  - assert (Hd1 : 0 < d1) by (eapply Qlt_le_trans; eassumption).
    destruct y2 as [d2|s2|]; [| |contradiction]; cbn [le] in H12.
    + destruct (quotient_antitone p d1 d2 Hp Hd1 H12) as [H0 Hq].
      rewrite !div_pos by (try assumption; eapply Qlt_le_trans; eassumption).
      split.
      * apply round_mono; assumption.
      * rewrite <- (round_zero 0) by reflexivity.
        apply round_mono; [apply Qle_refl|exact H0].
    + subst s2. rewrite div_pos by exact Hd1. cbn [div]. split.
      * rewrite <- (round_zero 0) by reflexivity.
        apply round_mono; [apply Qle_refl|].
        apply (quotient_antitone p d1 d1); try assumption. apply Qle_refl.
      * cbn. apply Qle_refl.
  - subst s1. destruct y2 as [d2|s2|]; [discriminate H12| |contradiction].
    cbn [le] in H12. destruct H12 as [H|H]; [discriminate H|subst s2].
    cbn. split; apply Qle_refl.
Qed.

(** [x / a] does not fall as [x] grows, for a positive divisor [a]. *)
Lemma div_monotone (a : Q) (x y : float) :
  0 < a -> le (Fin 0) x -> le x y -> le (div x (Fin a)) (div y (Fin a)).
Proof.
  intros Ha Hx Hxy.
  assert (Hinv : 0 <= / a) by (apply Qlt_le_weak, Qinv_lt_0_compat, Ha).
  destruct x as [p|s|]; [| |contradiction]; cbn [le] in Hx.
  - destruct y as [q|t|]; [| |contradiction]; cbn [le] in Hxy.
    + rewrite !div_pos by exact Ha. apply round_mono.
      * now apply Qmult_le_0_compat.
      * now apply Qmult_le_compat_r.
    + subst t. rewrite div_pos by exact Ha. cbn [div].
      rewrite (negative_pos a Ha). apply le_round_inf.
  - subst s. destruct y as [q|t|]; [discriminate Hxy| |contradiction].
    cbn [le] in Hxy. destruct Hxy as [H|H]; [discriminate H|subst t].
    cbn [div]. rewrite (negative_pos a Ha). cbn. now right.
Qed.

(** The constants of [mode]: [4 * np.pi] and [const.parsec * 1e6]. *)
Lemma four_pi : exists p, mul (Fin 4) np_pi = Fin p /\ 0 < p.
Proof. eexists. split; [vm_compute; reflexivity|reflexivity]. Qed.

Lemma mode_conversion_value :
  exists c, mul const_parsec (Fin 1000000) = Fin c /\ 1 <= c.
Proof. eexists. split; [vm_compute; reflexivity|vm_compute; discriminate]. Qed.

Lemma smallest_float : exists v, round (pow2 (-1074)) = Fin v /\ 0 < v.
Proof. eexists. split; [vm_compute; reflexivity|reflexivity]. Qed.

End Rounding.

(** ** The floats of the Standard Library and their values

  The rounding of the Standard Library's [SFmul] and [SFdiv] is
  round-to-nearest-even on the exact product and quotient: the two
  operations give the floats that [Float64.mul] and [Float64.div]
  give, and [SFcompare] compares their values. *)

Section StandardLibraryFloats.

Import Py Float64 RoundingSteps.
Local Open Scope Q_scope.

Lemma feq_refl x : feq x x.
Proof. destruct x; cbn; auto. reflexivity. Qed.

Lemma feq_sym x y : feq x y -> feq y x.
Proof. destruct x, y; cbn; auto. intros H; now symmetry. Qed.

Lemma feq_trans x y z : feq x y -> feq y z -> feq x z.
Proof. destruct x, y, z; cbn; try tauto; try congruence. intros; etransitivity; eassumption. Qed.

Lemma magnitude_unique (x : Q) (e : Z) :
  0 < x -> pow2 (e - 1) <= x -> x < pow2 e -> magnitude x = e.
Proof.
  intros Hx Hlo Hhi. destruct (magnitude_spec x Hx) as [Mlo Mhi].
  assert (H1 : pow2 (e - 1) < pow2 (magnitude x)) by (eapply Qle_lt_trans; eassumption).
  assert (H2 : pow2 (magnitude x - 1) < pow2 e) by (eapply Qle_lt_trans; eassumption).
  apply pow2_lt_inv in H1, H2. lia.
Qed.

Lemma magnitude_compat (p q : Q) : 0 < p -> p == q -> magnitude p = magnitude q.
Proof.
  intros Hp E. destruct (magnitude_spec p Hp) as [Mlo Mhi].
  symmetry. apply magnitude_unique; rewrite <- E; assumption.
Qed.

Lemma round_pos_compat (p q : Q) : 0 < p -> p == q -> round_pos p == round_pos q.
Proof.
  intros Hp E. unfold round_pos. cbv zeta.
  rewrite <- (magnitude_compat p q Hp E).
  rewrite (round_half_even_eq (q / _) (p / pow2 (fexp (magnitude p)))); [reflexivity|].
  unfold Qdiv. apply Qmult_comp; [now symmetry|reflexivity].
Qed.

Lemma overflow_compat (s : bool) (u v : Q) : u == v -> feq (overflow s u) (overflow s v).
Proof.
  intros E. unfold overflow.
  assert (Hb : Qle_bool (pow2 1024) u = Qle_bool (pow2 1024) v).
  { apply eq_true_iff_eq. rewrite !Qle_bool_iff. now rewrite E. }
  rewrite Hb. destruct (Qle_bool (pow2 1024) v); cbn; [reflexivity|].
  destruct s; now rewrite E.
Qed.

Lemma round_compat (p q : Q) : p == q -> feq (round p) (round q).
Proof.
  intros E. unfold round.
  assert (Hc : (p ?= 0) = (q ?= 0)) by now rewrite E.
  rewrite <- Hc. destruct (Qcompare_spec p 0) as [H|H|H].
  - cbn. reflexivity.
  - apply overflow_compat, round_pos_compat; [lra|now rewrite E].
  - apply overflow_compat, round_pos_compat; [exact H|exact E].
Qed.

Lemma fexp_same (e : Z) : SpecFloat.fexp 53 1024 e = Float64.fexp e.
Proof. reflexivity. Qed.

Lemma digits2_pos_spec (p : positive) :
  (2 ^ (Z.pos (digits2_pos p) - 1) <= Z.pos p < 2 ^ Z.pos (digits2_pos p))%Z.
Proof.
  induction p as [p IH|p IH|]; cbn [digits2_pos].
  - rewrite Pos2Z.inj_succ, (Pos2Z.inj_xI p).
    replace (Z.succ (Z.pos (digits2_pos p)) - 1)%Z
      with (Z.succ (Z.pos (digits2_pos p) - 1)) by lia.
    set (d := Z.pos (digits2_pos p)) in *.
    assert (0 < d)%Z by (unfold d; lia).
    rewrite (Z.pow_succ_r 2 d), (Z.pow_succ_r 2 (d - 1)) by lia. lia.
  - rewrite Pos2Z.inj_succ, (Pos2Z.inj_xO p).
    replace (Z.succ (Z.pos (digits2_pos p)) - 1)%Z
      with (Z.succ (Z.pos (digits2_pos p) - 1)) by lia.
    set (d := Z.pos (digits2_pos p)) in *.
    assert (0 < d)%Z by (unfold d; lia).
    rewrite (Z.pow_succ_r 2 d), (Z.pow_succ_r 2 (d - 1)) by lia. lia.
  - cbn. lia.
Qed.

Lemma locQ_compat (m : Z) (l : location) (t t' : Q) :
  t == t' -> locQ m l t -> locQ m l t'.
Proof.
  intros E. destruct l as [|c]; cbn.
  - intros H. now rewrite <- E.
  - intros (H1 & H2 & H3). rewrite <- E. auto.
Qed.

Lemma shr_1_nonneg (m : Z) (r s : bool) :
  (0 <= m)%Z ->
  shr_1 {| shr_m := m; shr_r := r; shr_s := s |}
  = {| shr_m := Z.div2 m; shr_r := Z.odd m; shr_s := r || s |}.
Proof. intros Hm. destruct m as [|[p|p|]|p]; try reflexivity. lia. Qed.

Lemma half_step (x : Q) (e : Z) : x / pow2 (e + 1) == x / pow2 e * (1 # 2).
Proof.
  rewrite !div_pow2. replace (- (e + 1))%Z with (- e + -1)%Z by lia.
  rewrite pow2_add. change (pow2 (-1)) with (1 # 2). ring.
Qed.

Lemma locQ_half (m : Z) (r s : bool) (t : Q) :
  locQ m (loc_of_shr_record {| shr_m := m; shr_r := r; shr_s := s |}) t ->
  locQ (Z.div2 m)
       (loc_of_shr_record
          {| shr_m := Z.div2 m; shr_r := Z.odd m; shr_s := r || s |})
       (t * (1 # 2)).
Proof.
  assert (Em : inject_Z m == 2 * inject_Z (Z.div2 m)
                            + (if Z.odd m then 1 else 0)).
  { rewrite (Z.div2_odd m) at 1. rewrite inject_Z_plus, inject_Z_mult.
    destruct (Z.odd m); cbn [Z.b2z]; reflexivity. }
  unfold locQ, loc_of_shr_record. revert Em.
  generalize (inject_Z m) (inject_Z (Z.div2 m)). intros M H Em.
  destruct r, s; cbn [orb]; destruct (Z.odd m); cbv iota in Em;
    try (intros (H1 & H2 & _)); try (intros H1);
    repeat match goal with |- _ /\ _ => split end;
    rewrite <- ?Qlt_alt, <- ?Qgt_alt, <- ?Qeq_alt; lra.
Qed.

Lemma shr_1_inv (mrs : shr_record) (e : Z) (x : Q) :
  inv mrs e x -> inv (shr_1 mrs) (e + 1) x.
Proof.
  destruct mrs as [m r s]. unfold inv. cbn [shr_m]. intros [Hm Hloc].
  rewrite shr_1_nonneg by exact Hm. cbn [shr_m]. split.
  - apply Z.div2_nonneg. exact Hm.
  - apply (locQ_compat _ _ (x / pow2 e * (1 # 2))); [symmetry; apply half_step|].
    now apply locQ_half.
Qed.

Lemma iter_shr_inv (p : positive) :
  forall (mrs : shr_record) (e : Z) (x : Q),
    inv mrs e x -> inv (iter_pos shr_1 p mrs) (e + Z.pos p) x.
Proof.
  induction p as [p IH|p IH|]; intros mrs e x H; cbn [iter_pos].
  - replace (e + Z.pos p~1)%Z with (e + 1 + Z.pos p + Z.pos p)%Z by lia.
    apply IH, IH, shr_1_inv, H.
  - replace (e + Z.pos p~0)%Z with (e + Z.pos p + Z.pos p)%Z by lia.
    apply IH, IH, H.
  - apply shr_1_inv, H.
Qed.

Lemma record_of_loc (m : Z) (l : location) :
  shr_m (shr_record_of_loc m l) = m
  /\ loc_of_shr_record (shr_record_of_loc m l) = l.
Proof. destruct l as [|[]]; split; reflexivity. Qed.

(** [shr] by [n >= 0] places. *)
Lemma shr_inv (mrs : shr_record) (e n : Z) (x : Q) :
  (0 <= n)%Z -> inv mrs e x ->
  snd (shr mrs e n) = (e + n)%Z /\ inv (fst (shr mrs e n)) (e + n) x.
Proof.
  intros Hn H. destruct n as [|p|p]; cbn [shr fst snd].
  - rewrite Z.add_0_r. auto.
  - split; [reflexivity|]. now apply iter_shr_inv.
  - lia.
Qed.

Lemma floor_between (t : Q) (m : Z) :
  inject_Z m < t -> t < inject_Z m + 1 -> Qfloor t = m.
Proof.
  intros H1 H2.
  pose proof (Qfloor_le t) as F1. pose proof (Qlt_floor t) as F2.
  rewrite inject_Z_plus in F2. change (inject_Z 1) with 1 in F2.
  assert (A : inject_Z (Qfloor t) < inject_Z m + 1)
    by (eapply Qle_lt_trans; eassumption).
  assert (B : inject_Z m < inject_Z (Qfloor t) + 1)
    by (eapply Qlt_trans; eassumption).
  change 1 with (inject_Z 1) in A, B.
  rewrite <- inject_Z_plus, <- Zlt_Qlt in A, B. lia.
Qed.

(** The rounding of the Standard Library and [round_half_even]. *)
Lemma round_nearest_even_spec (m : Z) (l : location) (t : Q) :
  locQ m l t -> round_nearest_even m l = round_half_even t.
Proof.
  destruct l as [|c]; cbn [locQ round_nearest_even].
  - intros E. rewrite (round_half_even_eq t (inject_Z m) E).
    symmetry. apply round_half_even_Z.
  - intros (H1 & H2 & H3).
    pose proof (floor_between t m H1 H2) as Hf.
    unfold round_half_even. rewrite Hf.
    assert (Hc : (t - inject_Z m ?= 1 # 2) = c).
    { rewrite <- H3. clear H1 H2 H3 Hf. generalize (inject_Z m). intros M.
      destruct (Qcompare_spec t (M + (1 # 2))) as [E|E|E].
      - rewrite <- Qeq_alt. lra.
      - rewrite <- Qlt_alt. lra.
      - rewrite <- Qgt_alt. lra. }
    rewrite Hc. destruct c; reflexivity.
Qed.

Lemma locQ_bounds (m : Z) (l : location) (t : Q) :
  locQ m l t -> inject_Z m <= t /\ t < inject_Z m + 1.
Proof.
  destruct l as [|c]; cbn [locQ]; generalize (inject_Z m); intros M.
  - intros E. split; lra.
  - intros (H1 & H2 & _). split; lra.
Qed.

(** [a * 2^e <= x] read on [x / 2^e], and the like. *)
Lemma scaled_le (a x : Q) (e : Z) : a <= x / pow2 e <-> a * pow2 e <= x.
Proof.
  pose proof (pow2_pos e) as He. split; intros H.
  - apply (Qmult_le_compat_r _ _ (pow2 e)) in H; [|now apply Qlt_le_weak].
    revert H. unfold Qdiv. rewrite <- Qmult_assoc, (Qmult_comm (/ _)),
      Qmult_inv_r, Qmult_1_r; [auto|]. intros E. rewrite E in He. discriminate.
  - apply Qle_shift_div_l; assumption.
Qed.

Lemma scaled_lt (a x : Q) (e : Z) : x / pow2 e < a <-> x < a * pow2 e.
Proof.
  pose proof (pow2_pos e) as He. split; intros H.
  - apply (Qmult_lt_compat_r _ _ (pow2 e)) in H; [|exact He].
    revert H. unfold Qdiv. rewrite <- Qmult_assoc, (Qmult_comm (/ _)),
      Qmult_inv_r, Qmult_1_r; [auto|]. intros E. rewrite E in He. discriminate.
  - apply Qlt_shift_div_r; assumption.
Qed.

(** The binade of a number that lies between [m * 2^e] and
    [(m + 1) * 2^e], for a positive [m]. *)
Lemma magnitude_of_digits (p : positive) (e : Z) (x : Q) :
  inject_Z (Z.pos p) <= x / pow2 e -> x / pow2 e < inject_Z (Z.pos p) + 1 ->
  magnitude x = (Z.pos (digits2_pos p) + e)%Z.
Proof.
  intros Hlo Hhi. destruct (digits2_pos_spec p) as [D1 D2].
  set (d := Z.pos (digits2_pos p)) in *.
  assert (Hd : (0 < d)%Z) by (unfold d; lia).
  apply scaled_le in Hlo. apply scaled_lt in Hhi.
  pose proof (pow2_pos e) as He.
  assert (L : pow2 (d + e - 1) <= x).
  { eapply Qle_trans; [|exact Hlo].
    replace (d + e - 1)%Z with (d - 1 + e)%Z by lia.
    rewrite pow2_add, (pow2_Z (d - 1)) by lia.
    apply Qmult_le_compat_r; [|now apply Qlt_le_weak].
    now rewrite <- Zle_Qle. }
  assert (U : x < pow2 (d + e)).
  { eapply Qlt_le_trans; [exact Hhi|].
    rewrite pow2_add, (pow2_Z d) by lia.
    apply Qmult_le_compat_r; [|now apply Qlt_le_weak].
    change 1 with (inject_Z 1). rewrite <- inject_Z_plus, <- Zle_Qle. lia. }
  apply magnitude_unique; try assumption.
  eapply Qlt_le_trans; [apply (pow2_pos (d + e - 1))|exact L].
Qed.

(** The first shift of [binary_round_aux] brings the mantissa to the
    grid of the number's binade. *)
Lemma first_shift (m e : Z) (l : location) (x : Q) :
  0 < x -> (0 <= m)%Z -> locQ m l (x / pow2 e) ->
  (e <= Float64.fexp (magnitude x))%Z ->
  snd (shr_fexp 53 1024 m e l) = Float64.fexp (magnitude x)
  /\ inv (fst (shr_fexp 53 1024 m e l)) (Float64.fexp (magnitude x)) x.
Proof.
  intros Hx Hm Hloc He.
  assert (Hinv : inv (shr_record_of_loc m l) e x).
  { destruct (record_of_loc m l) as [E1 E2]. unfold inv. now rewrite E1, E2. }
  assert (Hn : (SpecFloat.fexp 53 1024 (Zdigits2 m + e) - e
                = Float64.fexp (magnitude x) - e)%Z).
  { rewrite fexp_same. destruct (locQ_bounds _ _ _ Hloc) as [Hlo Hhi].
    destruct m as [|p|p]; [| |lia].
    - (* nothing left of the mantissa: the number is below [2^e] *)
      cbn [Zdigits2]. cbn in Hhi. rewrite Qplus_0_l in Hhi.
      apply scaled_lt in Hhi. rewrite Qmult_1_l in Hhi.
      destruct (magnitude_spec x Hx) as [Mlo _].
      assert (H : pow2 (magnitude x - 1) < pow2 e)
        by (eapply Qle_lt_trans; eassumption).
      apply pow2_lt_inv in H. unfold Float64.fexp in *. lia.
    - cbn [Zdigits2]. now rewrite (magnitude_of_digits p e x Hlo Hhi). }
  unfold shr_fexp. rewrite Hn.
  destruct (shr_inv (shr_record_of_loc m l) e
              (Float64.fexp (magnitude x) - e) x ltac:(lia) Hinv) as [E I].
  replace (e + (Float64.fexp (magnitude x) - e))%Z
    with (Float64.fexp (magnitude x)) in * by lia.
  auto.
Qed.

Lemma binary_round_aux_unfold (s : bool) (m e : Z) (l : location) :
  binary_round_aux 53 1024 s m e l
  = let first := shr_fexp 53 1024 m e l in
    let second :=
      shr_fexp 53 1024
        (round_nearest_even (shr_m (fst first)) (loc_of_shr_record (fst first)))
        (snd first) loc_Exact in
    finish s (shr_m (fst second)) (snd second).
Proof.
  unfold binary_round_aux. cbv zeta.
  destruct (shr_fexp 53 1024 m e l) as [mrs' e']. cbn [fst snd].
  destruct (shr_fexp 53 1024 _ e' loc_Exact) as [mrs'' e'']. reflexivity.
Qed.

Lemma shr_nonpos (mrs : shr_record) (e n : Z) :
  (n <= 0)%Z -> shr mrs e n = (mrs, e).
Proof. intros Hn. destruct n; try reflexivity. lia. Qed.

Lemma mantissa_le (a M fe : Z) :
  (0 <= a)%Z -> (2 ^ a <= M)%Z -> pow2 (a + fe) <= inject_Z M * pow2 fe.
Proof.
  intros Ha H. rewrite pow2_add, (pow2_Z a) by exact Ha.
  apply Qmult_le_compat_r; [|apply Qlt_le_weak, pow2_pos].
  now rewrite <- Zle_Qle.
Qed.

Lemma mantissa_lt (a M fe : Z) :
  (0 <= a)%Z -> (M < 2 ^ a)%Z -> inject_Z M * pow2 fe < pow2 (a + fe).
Proof.
  intros Ha H. rewrite pow2_add, (pow2_Z a) by exact Ha.
  apply Qmult_lt_compat_r; [apply pow2_pos|].
  now rewrite <- Zlt_Qlt.
Qed.

Lemma overflow_below (s : bool) (v : Q) :
  v < pow2 1024 -> overflow s v = Fin (if s then - v else v).
Proof.
  intros H. unfold overflow.
  destruct (Qle_bool (pow2 1024) v) eqn:E; [|reflexivity].
  apply Qle_bool_iff in E. exfalso. apply (Qlt_irrefl v).
  eapply Qlt_le_trans; eassumption.
Qed.

Lemma overflow_above (s : bool) (v : Q) :
  pow2 1024 <= v -> overflow s v = Inf s.
Proof.
  intros H. unfold overflow. apply Qle_bool_iff in H. now rewrite H.
Qed.

Lemma value_of_finite (s : bool) (p : positive) (e : Z) :
  feq (value_of (S754_finite s p e))
      (Fin (if s then - (inject_Z (Z.pos p) * pow2 e)
            else inject_Z (Z.pos p) * pow2 e)).
Proof. cbn [value_of feq]. destruct s; ring. Qed.

(** The second shift of [binary_round_aux]: the rounded mantissa has
    one bit too many only when it is [2^53]. *)
Lemma second_shift (s : bool) (M fe : Z) :
  (0 <= M <= 2 ^ 53)%Z -> (-1074 <= fe)%Z ->
  (fe = -1074 \/ 2 ^ 52 <= M)%Z ->
  let second := shr_fexp 53 1024 M fe loc_Exact in
  let r := finish s (shr_m (fst second)) (snd second) in
  feq (value_of r) (overflow s (inject_Z M * pow2 fe))
  /\ valid_binary 53 1024 r = true.
Proof.
  intros [HM0 HM1] Hfe Hnormal. cbv zeta. unfold shr_fexp.
  destruct (Z.eq_dec M (2 ^ 53)) as [->|Hne].
  - (* the carry *)
    change (Zdigits2 (2 ^ 53)) with 54%Z.
    replace (SpecFloat.fexp 53 1024 (54 + fe) - fe)%Z with 1%Z
      by (rewrite fexp_same; unfold Float64.fexp; lia).
    change (shr (shr_record_of_loc (2 ^ 53) loc_Exact) fe 1)
      with ({| shr_m := 2 ^ 52; shr_r := false; shr_s := false |}, (fe + 1)%Z).
    cbn [fst snd shr_m]. unfold finish.
    change (2 ^ 52)%Z with (Z.pos (2 ^ 52)).
    destruct (Z.leb_spec (fe + 1) (1024 - 53)) as [Hle|Hgt].
    + split.
      * eapply feq_trans; [apply value_of_finite|].
        rewrite overflow_below.
        -- cbn [feq]. replace (fe + 1)%Z with (1 + fe)%Z by lia.
           change (inject_Z (2 ^ 53)) with (2 * inject_Z (Z.pos (2 ^ 52))).
           destruct s; rewrite (pow2_add 1 fe); change (pow2 1) with 2; ring.
        -- eapply Qlt_le_trans; [apply (mantissa_lt 54); lia|].
           apply pow2_le. lia.
      * cbn [valid_binary]. unfold bounded, canonical_mantissa.
        change (Z.pos (digits2_pos (2 ^ 52))) with 53%Z.
        rewrite fexp_same. unfold Float64.fexp.
        apply andb_true_intro. split; [apply Z.eqb_eq|apply Z.leb_le]; lia.
    + split; [|reflexivity]. rewrite overflow_above; [reflexivity|].
      eapply Qle_trans; [|apply (mantissa_le 53); lia]. apply pow2_le. lia.
  - assert (HM : (M < 2 ^ 53)%Z) by lia. clear HM1 Hne.
    destruct M as [|p|p]; [| |lia].
    + (* underflow to zero *)
      rewrite shr_nonpos
        by (cbn [Zdigits2]; rewrite fexp_same; unfold Float64.fexp; lia).
      cbn [fst snd shr_m shr_record_of_loc finish]. split; [|reflexivity].
      rewrite overflow_below.
      * cbn [value_of feq]. destruct s; ring.
      * rewrite Qmult_0_l. apply pow2_pos.
    + destruct (digits2_pos_spec p) as [D1 D2].
      set (d := Z.pos (digits2_pos p)) in *.
      assert (Hd : (0 < d <= 53)%Z).
      { split; [unfold d; lia|].
        assert (H : (2 ^ (d - 1) < 2 ^ 53)%Z) by lia.
        apply Z.pow_lt_mono_r_iff in H; lia. }
      rewrite shr_nonpos
        by (cbn [Zdigits2]; fold d; rewrite fexp_same; unfold Float64.fexp; lia).
      cbn [fst snd shr_m shr_record_of_loc finish].
      destruct (Z.leb_spec fe (1024 - 53)) as [Hle|Hgt].
      * split.
        -- eapply feq_trans; [apply value_of_finite|].
           rewrite overflow_below; [apply feq_refl|].
           eapply Qlt_le_trans; [apply (mantissa_lt 53); lia|].
           apply pow2_le. lia.
        -- cbn [valid_binary]. unfold bounded, canonical_mantissa. fold d.
           rewrite fexp_same. unfold Float64.fexp.
           apply andb_true_intro. split; [apply Z.eqb_eq|apply Z.leb_le; lia].
           destruct Hnormal as [->|H52]; [lia|].
           assert (H : (2 ^ 52 < 2 ^ d)%Z) by lia.
           apply Z.pow_lt_mono_r_iff in H; lia.
      * split; [|reflexivity]. rewrite overflow_above; [reflexivity|].
        destruct Hnormal as [->|H52]; [lia|].
        eapply Qle_trans; [|apply (mantissa_le 52); lia]. apply pow2_le. lia.
Qed.

Lemma rounded_mantissa_bounds (x : Q) :
  0 < x ->
  let fe := Float64.fexp (magnitude x) in
  let M := round_half_even (x / pow2 fe) in
  (0 <= M <= 2 ^ 53)%Z /\ (-1074 <= fe)%Z /\ (fe = -1074 \/ 2 ^ 52 <= M)%Z.
Proof.
  intros Hx. cbv zeta.
  pose proof (round_pos_upper x Hx) as Hup.
  pose proof (round_pos_lower x Hx) as Hlow.
  pose proof (round_pos_nonneg x (Qlt_le_weak _ _ Hx)) as H0.
  unfold round_pos in Hup, Hlow, H0. cbv zeta in Hup, Hlow, H0.
  set (fe := Float64.fexp (magnitude x)) in *.
  set (M := round_half_even (x / pow2 fe)) in *.
  pose proof (pow2_pos fe) as Hfe.
  assert (Hfe' : (-1074 <= fe)%Z) by (unfold fe, Float64.fexp; lia).
  repeat split.
  - rewrite <- (Qmult_0_l (pow2 fe)) in H0.
    apply Qmult_le_r in H0; [|exact Hfe].
    change 0 with (inject_Z 0) in H0. now rewrite <- Zle_Qle in H0.
  - assert (H : inject_Z M * pow2 fe <= inject_Z (2 ^ 53) * pow2 fe).
    { eapply Qle_trans; [exact Hup|].
      rewrite <- (pow2_Z 53), <- pow2_add by lia.
      apply pow2_le. unfold fe, Float64.fexp. lia. }
    apply Qmult_le_r in H; [|exact Hfe]. now rewrite <- Zle_Qle in H.
  - exact Hfe'.
  - destruct (Z.eq_dec fe (-1074)) as [E|N]; [now left|right].
    assert (Hn : fe = (magnitude x - 53)%Z) by (unfold fe, Float64.fexp in *; lia).
    specialize (Hlow Hn).
    assert (H : inject_Z (2 ^ 52) * pow2 fe <= inject_Z M * pow2 fe).
    { eapply Qle_trans; [|exact Hlow].
      rewrite <- (pow2_Z 52), <- pow2_add by lia.
      apply pow2_le. lia. }
    apply Qmult_le_r in H; [|exact Hfe]. now rewrite <- Zle_Qle in H.
Qed.

(** [binary_round_aux] rounds to nearest, ties to even: given a
    mantissa, an exponent and a location that hold the positive number
    [x], on a grid at least as fine as that of its binade, it returns
    the float of [round x], in canonical form. *)
Lemma binary_round_aux_correct (s : bool) (m e : Z) (l : location) (x : Q) :
  0 < x -> (0 <= m)%Z -> locQ m l (x / pow2 e) ->
  (e <= Float64.fexp (magnitude x))%Z ->
  feq (value_of (binary_round_aux 53 1024 s m e l)) (overflow s (round_pos x))
  /\ valid_binary 53 1024 (binary_round_aux 53 1024 s m e l) = true.
Proof.
  intros Hx Hm Hloc He. rewrite binary_round_aux_unfold. cbv zeta.
  destruct (first_shift m e l x Hx Hm Hloc He) as [E [_ Hloc']].
  rewrite E, (round_nearest_even_spec _ _ _ Hloc').
  destruct (rounded_mantissa_bounds x Hx) as (HM & Hfe & Hn).
  cbv zeta in HM, Hfe, Hn.
  exact (second_shift s _ _ HM Hfe Hn).
Qed.

Lemma abs_value_pos (m : positive) (e : Z) : 0 < abs_value m e.
Proof.
  unfold abs_value. apply Qmult_lt_0_compat; [reflexivity|apply pow2_pos].
Qed.

Lemma value_of_signed (s : bool) (m : positive) (e : Z) :
  feq (value_of (S754_finite s m e)) (Fin (signed s (abs_value m e))).
Proof. apply value_of_finite. Qed.

Lemma round_signed (s : bool) (a : Q) :
  0 < a -> feq (round (signed s a)) (overflow s (round_pos a)).
Proof.
  intros Ha. unfold round, signed. destruct s.
  - assert (H : (- a ?= 0) = Lt) by (rewrite <- Qlt_alt; lra).
    rewrite H. apply overflow_compat, round_pos_compat; [lra|ring].
  - assert (H : (a ?= 0) = Gt) by (rewrite <- Qgt_alt; lra).
    rewrite H. apply feq_refl.
Qed.

Lemma signed_mul (s t : bool) (a b : Q) :
  signed s a * signed t b == signed (xorb s t) (a * b).
Proof. destruct s, t; cbn; ring. Qed.

Lemma signed_div (s t : bool) (a b : Q) :
  ~ b == 0 -> signed s a / signed t b == signed (xorb s t) (a / b).
Proof. intros Hb. destruct s, t; cbn; field; exact Hb. Qed.

Lemma signed_nonzero (s : bool) (a : Q) : 0 < a -> ~ signed s a == 0.
Proof. intros Ha E. destruct s; cbn in E; lra. Qed.

(** *** Multiplication *)

Lemma digits_mul (mx my : positive) :
  (Z.pos (digits2_pos mx) + Z.pos (digits2_pos my) - 1
   <= Z.pos (digits2_pos (mx * my)))%Z.
Proof.
  destruct (digits2_pos_spec mx) as [X1 _].
  destruct (digits2_pos_spec my) as [Y1 _].
  destruct (digits2_pos_spec (mx * my)) as [_ P2].
  set (dx := Z.pos (digits2_pos mx)) in *.
  set (dy := Z.pos (digits2_pos my)) in *.
  set (d := Z.pos (digits2_pos (mx * my))) in *.
  assert (Hdx : (0 < dx)%Z) by (unfold dx; lia).
  assert (Hdy : (0 < dy)%Z) by (unfold dy; lia).
  assert (H : (2 ^ (dx - 1 + (dy - 1)) < 2 ^ d)%Z).
  { rewrite Z.pow_add_r by lia. rewrite Pos2Z.inj_mul in P2.
    eapply Z.le_lt_trans; [|exact P2].
    apply Z.mul_le_mono_nonneg; try assumption; apply Z.pow_nonneg; lia. }
  assert (Hd : (0 < d)%Z) by (unfold d; lia).
  apply Z.pow_lt_mono_r_iff in H; lia.
Qed.

Lemma canonical_exponent (m : positive) (e : Z) :
  canonical_mantissa 53 1024 m e = true ->
  e = Float64.fexp (Z.pos (digits2_pos m) + e).
Proof.
  unfold canonical_mantissa. rewrite fexp_same. intros H.
  apply Z.eqb_eq in H. now symmetry.
Qed.

Lemma mul_finite (sx sy : bool) (mx my : positive) (ex ey : Z) :
  canonical_mantissa 53 1024 mx ex = true ->
  canonical_mantissa 53 1024 my ey = true ->
  feq (value_of (SFmul 53 1024 (S754_finite sx mx ex) (S754_finite sy my ey)))
      (mul (Fin (signed sx (abs_value mx ex))) (Fin (signed sy (abs_value my ey))))
  /\ valid_binary 53 1024
       (SFmul 53 1024 (S754_finite sx mx ex) (S754_finite sy my ey)) = true.
Proof.
  intros Cx Cy. cbn [SFmul mul].
  pose proof (abs_value_pos mx ex) as Hx. pose proof (abs_value_pos my ey) as Hy.
  set (x := abs_value mx ex * abs_value my ey).
  assert (Hxy : 0 < x) by (apply Qmult_lt_0_compat; assumption).
  assert (Et : x / pow2 (ex + ey) == inject_Z (Z.pos (mx * my))).
  { unfold x, abs_value. rewrite pow2_add, Pos2Z.inj_mul, inject_Z_mult.
    pose proof (pow2_pos ex). pose proof (pow2_pos ey). field. split; lra. }
  assert (Hmag : magnitude x = (Z.pos (digits2_pos (mx * my)) + (ex + ey))%Z).
  { apply magnitude_of_digits; rewrite Et; [apply Qle_refl|].
    rewrite <- (Qplus_0_r (inject_Z _)) at 1. apply Qplus_lt_r. reflexivity. }
  destruct (binary_round_aux_correct (xorb sx sy) (Z.pos (mx * my)) (ex + ey)
              loc_Exact x Hxy ltac:(lia)) as [Hv Hvalid].
  - cbn [locQ]. exact Et.
  - rewrite Hmag. apply canonical_exponent in Cx, Cy.
    pose proof (digits_mul mx my). unfold Float64.fexp in *. lia.
  - split; [|exact Hvalid].
    eapply feq_trans; [exact Hv|]. apply feq_sym.
    eapply feq_trans; [apply round_compat, signed_mul|].
    apply round_signed. exact Hxy.
Qed.

(** *** Division *)

Lemma new_location_spec (n r q : Z) :
  (0 < n)%Z -> (0 <= r < n)%Z ->
  locQ q (new_location n r) (inject_Z q + inject_Z r / inject_Z n).
Proof.
  intros Hn Hr.
  assert (Hloc : new_location n r
                 = if (r =? 0)%Z then loc_Exact
                   else loc_Inexact (2 * r ?= n)%Z).
  { unfold new_location, new_location_even, new_location_odd.
    destruct (Z.even n) eqn:Ev; destruct (r =? 0)%Z; try reflexivity.
    f_equal. apply Zeven_bool_iff in Ev || idtac.
    assert (Hodd : Z.odd n = true) by (rewrite <- Z.negb_even, Ev; reflexivity).
    apply Z.odd_spec in Hodd. destruct Hodd as [k Hk].
    destruct (Z.compare_spec (2 * r + 1) n);
      destruct (Z.compare_spec (2 * r) n); try reflexivity; lia. }
  rewrite Hloc. clear Hloc.
  assert (Nq : 0 < inject_Z n)
    by (change 0 with (inject_Z 0); now rewrite <- Zlt_Qlt).
  destruct (Z.eqb_spec r 0) as [->|Hr0]; cbn [locQ].
  - unfold Qdiv. change (inject_Z 0) with 0. ring.
  - assert (Rq : 0 < inject_Z r)
      by (change 0 with (inject_Z 0); rewrite <- Zlt_Qlt; lia).
    assert (Rn : inject_Z r < inject_Z n) by (rewrite <- Zlt_Qlt; lia).
    assert (F0 : 0 < inject_Z r / inject_Z n)
      by (apply Qlt_shift_div_l; [exact Nq|now rewrite Qmult_0_l]).
    assert (F1 : inject_Z r / inject_Z n < 1)
      by (apply Qlt_shift_div_r; [exact Nq|now rewrite Qmult_1_l]).
    assert (Hc : (inject_Z r / inject_Z n ?= 1 # 2) = (2 * r ?= n)%Z).
    { assert (E2 : inject_Z (2 * r) == 2 * inject_Z r)
        by (rewrite inject_Z_mult; reflexivity).
      destruct (Z.compare_spec (2 * r) n) as [E|E|E].
      - rewrite <- Qeq_alt. rewrite <- E, E2. field. lra.
      - rewrite <- Qlt_alt. apply Qlt_shift_div_r; [exact Nq|].
        rewrite Zlt_Qlt, E2 in E. lra.
      - rewrite <- Qgt_alt. apply Qlt_shift_div_l; [exact Nq|].
        rewrite Zlt_Qlt, E2 in E. lra. }
    rewrite <- Hc. revert F0 F1.
    generalize (inject_Z r / inject_Z n) (inject_Z q). intros f Q F0 F1.
    repeat match goal with |- _ /\ _ => split end; try lra.
    destruct (Qcompare_spec f (1 # 2)) as [E|E|E];
      [rewrite <- Qeq_alt|rewrite <- Qlt_alt|rewrite <- Qgt_alt]; lra.
Qed.

Lemma abs_value_bounds (m : positive) (e : Z) :
  pow2 (Z.pos (digits2_pos m) - 1 + e) <= abs_value m e
  /\ abs_value m e < pow2 (Z.pos (digits2_pos m) + e).
Proof.
  destruct (digits2_pos_spec m) as [D1 D2]. unfold abs_value. split.
  - apply mantissa_le; [lia|exact D1].
  - apply mantissa_lt; [lia|exact D2].
Qed.

Lemma div_core_spec (m1 m2 : positive) (e1 e2 : Z) :
  let x := abs_value m1 e1 / abs_value m2 e2 in
  let '(q, e', l) := SFdiv_core_binary 53 1024 (Z.pos m1) e1 (Z.pos m2) e2 in
  (0 <= q)%Z /\ locQ q l (x / pow2 e')
  /\ (e' <= Float64.fexp (magnitude x))%Z.
Proof.
  cbv zeta. unfold SFdiv_core_binary. cbv zeta. cbn [Zdigits2].
  pose proof (abs_value_pos m1 e1) as X1. pose proof (abs_value_pos m2 e2) as X2.
  destruct (abs_value_bounds m1 e1) as [L1 _].
  destruct (abs_value_bounds m2 e2) as [_ U2].
  set (d1 := Z.pos (digits2_pos m1)) in *.
  set (d2 := Z.pos (digits2_pos m2)) in *.
  rewrite fexp_same.
  set (e' := Z.min (Float64.fexp (d1 + e1 - (d2 + e2))) (e1 - e2)).
  set (s := (e1 - e2 - e')%Z).
  assert (Hs : (0 <= s)%Z) by (unfold s, e'; lia).
  assert (Em : match s with
               | 0%Z => Z.pos m1
               | Z.pos _ => Z.shiftl (Z.pos m1) s
               | Z.neg _ => 0%Z
               end = (Z.pos m1 * 2 ^ s)%Z).
  { destruct s as [|p|p] eqn:Es; [lia| |lia].
    rewrite Z.shiftl_mul_pow2 by lia. reflexivity. }
  rewrite Em. clear Em.
  pose proof (Z_div_mod (Z.pos m1 * 2 ^ s) (Z.pos m2) ltac:(lia)) as Hdiv.
  destruct (Z.div_eucl (Z.pos m1 * 2 ^ s) (Z.pos m2)) as [q r].
  destruct Hdiv as [Hqr Hr].
  assert (Hpow : (0 < 2 ^ s)%Z) by (apply Z.pow_pos_nonneg; lia).
  assert (Hq : (0 <= q)%Z) by nia.
  set (x := abs_value m1 e1 / abs_value m2 e2).
  assert (Hx : 0 < x) by (apply Qlt_shift_div_l; [exact X2|now rewrite Qmult_0_l]).
  split; [exact Hq|]. split.
  - apply (locQ_compat _ _ (inject_Z q + inject_Z r / inject_Z (Z.pos m2)));
      [|apply new_location_spec; lia].
    assert (E1 : pow2 e1 == inject_Z (2 ^ s) * pow2 e2 * pow2 e').
    { rewrite <- pow2_Z, <- !pow2_add by exact Hs.
      now replace (s + e2 + e')%Z with e1 by (unfold s; lia). }
    assert (E2 : inject_Z (Z.pos m1) * inject_Z (2 ^ s)
                 == inject_Z (Z.pos m2) * inject_Z q + inject_Z r).
    { rewrite <- !inject_Z_mult, <- inject_Z_plus. now rewrite Hqr. }
    unfold x, abs_value. rewrite E1.
    pose proof (pow2_pos e2). pose proof (pow2_pos e').
    assert (N2 : 0 < inject_Z (Z.pos m2)) by reflexivity.
    transitivity ((inject_Z (Z.pos m1) * inject_Z (2 ^ s)) / inject_Z (Z.pos m2)).
    + rewrite E2. field. lra.
    + field. repeat split; lra.
  - assert (Hlow : pow2 (d1 + e1 - (d2 + e2) - 1) < x).
    { unfold x. apply Qlt_shift_div_l; [exact X2|].
      eapply Qlt_le_trans; [|exact L1].
      replace (d1 - 1 + e1)%Z with (d1 + e1 - (d2 + e2) - 1 + (d2 + e2))%Z by lia.
      rewrite (pow2_add (d1 + e1 - (d2 + e2) - 1)).
      apply Qmult_lt_l; [apply pow2_pos|exact U2]. }
    destruct (magnitude_spec x Hx) as [_ Mhi].
    assert (H : pow2 (d1 + e1 - (d2 + e2) - 1) < pow2 (magnitude x))
      by (eapply Qlt_trans; eassumption).
    apply pow2_lt_inv in H. unfold e', Float64.fexp. lia.
Qed.

Lemma div_finite (sx sy : bool) (mx my : positive) (ex ey : Z) :
  feq (value_of (SFdiv 53 1024 (S754_finite sx mx ex) (S754_finite sy my ey)))
      (div (Fin (signed sx (abs_value mx ex))) (Fin (signed sy (abs_value my ey))))
  /\ valid_binary 53 1024
       (SFdiv 53 1024 (S754_finite sx mx ex) (S754_finite sy my ey)) = true.
Proof.
  cbn [SFdiv].
  pose proof (div_core_spec mx my ex ey) as Hcore. cbv zeta in Hcore.
  destruct (SFdiv_core_binary 53 1024 (Z.pos mx) ex (Z.pos my) ey)
    as [[q e'] l].
  destruct Hcore as (Hq & Hloc & He).
  pose proof (abs_value_pos mx ex) as X. pose proof (abs_value_pos my ey) as Y.
  assert (Hx : 0 < abs_value mx ex / abs_value my ey)
    by (apply Qlt_shift_div_l; [exact Y|now rewrite Qmult_0_l]).
  destruct (binary_round_aux_correct (xorb sx sy) q e' l _ Hx Hq Hloc He)
    as [Hv Hvalid].
  split; [|exact Hvalid].
  eapply feq_trans; [exact Hv|]. apply feq_sym.
  assert (Hd : div (Fin (signed sx (abs_value mx ex)))
                   (Fin (signed sy (abs_value my ey)))
               = round (signed sx (abs_value mx ex) / signed sy (abs_value my ey))).
  { unfold div. pose proof (signed_nonzero sy _ Y) as Hn.
    destruct (Qcompare_spec (signed sy (abs_value my ey)) 0) as [E|E|E];
      [contradiction|reflexivity|reflexivity]. }
  rewrite Hd.
  eapply feq_trans; [apply round_compat, signed_div; lra|].
  apply round_signed. exact Hx.
Qed.

Lemma negative_compat (p q : Q) : p == q -> negative p = negative q.
Proof. intros E. unfold negative. now rewrite E. Qed.

Lemma mul_compat (x x' y y' : float) :
  feq x x' -> feq y y' -> feq (mul x y) (mul x' y').
Proof.
  destruct x as [p|s|], x' as [p'|s'|]; cbn [feq]; try contradiction;
    destruct y as [q|t|], y' as [q'|t'|]; cbn [feq]; try contradiction;
    intros Ex Ey; cbn [mul]; subst; try exact I.
  - apply round_compat. now rewrite Ex, Ey.
  - rewrite (negative_compat p p' Ex).
    assert (Hc : (p ?= 0) = (p' ?= 0)) by now rewrite Ex.
    rewrite Hc. destruct (p' ?= 0); cbn; auto.
  - rewrite (negative_compat q q' Ey).
    assert (Hc : (q ?= 0) = (q' ?= 0)) by now rewrite Ey.
    rewrite Hc. destruct (q' ?= 0); cbn; auto.
  - reflexivity.
Qed.

Lemma div_compat (x x' y y' : float) :
  feq x x' -> feq y y' -> feq (div x y) (div x' y').
Proof.
  destruct x as [p|s|], x' as [p'|s'|]; cbn [feq]; try contradiction;
    destruct y as [q|t|], y' as [q'|t'|]; cbn [feq]; try contradiction;
    intros Ex Ey; cbn [div]; subst; try exact I.
  - assert (Hq : (q ?= 0) = (q' ?= 0)) by now rewrite Ey.
    assert (Hp : (p ?= 0) = (p' ?= 0)) by now rewrite Ex.
    rewrite Hq, Hp, (negative_compat p p' Ex).
    destruct (q' ?= 0); try (apply round_compat; now rewrite Ex, Ey).
    destruct (p' ?= 0); cbn; auto.
  - reflexivity.
  - now rewrite (negative_compat q q' Ey).
Qed.

Lemma le_compat (x x' y y' : float) :
  feq x x' -> feq y y' -> le x y -> le x' y'.
Proof.
  destruct x as [p|s|], x' as [p'|s'|]; cbn [feq]; try contradiction;
    destruct y as [q|t|], y' as [q'|t'|]; cbn [feq]; try contradiction;
    intros Ex Ey; cbn [le]; subst; auto.
  intros H. now rewrite <- Ex, <- Ey.
Qed.

Lemma same_feq (x y : float) : same x y = true -> feq x y.
Proof.
  destruct x, y; cbn; try discriminate; auto.
  - apply Qeq_bool_iff.
  - apply Bool.eqb_prop.
Qed.

Lemma negative_signed (s : bool) (a : Q) : 0 < a -> negative (signed s a) = s.
Proof.
  intros Ha. unfold negative, signed. destruct s.
  - assert (H : (- a ?= 0) = Lt) by (rewrite <- Qlt_alt; lra). now rewrite H.
  - assert (H : (a ?= 0) = Gt) by (rewrite <- Qgt_alt; lra). now rewrite H.
Qed.

Lemma signed_compare (s : bool) (a : Q) : 0 < a -> (signed s a ?= 0) <> Eq.
Proof.
  intros Ha E. apply Qeq_alt in E. exact (signed_nonzero s a Ha E).
Qed.

Lemma denote_value_of (x : spec_float) : feq (value_of x) (denote x).
Proof.
  destruct x; try apply feq_refl. apply value_of_signed.
Qed.

Lemma zero_rounds (q : Q) : q == 0 -> feq (Fin 0) (round q).
Proof.
  intros E. apply feq_sym. eapply feq_trans; [apply (round_compat _ 0 E)|].
  apply feq_refl.
Qed.

(** Multiplication and division of the Standard Library are those of
    floats by value; a product wants its operands in canonical form, a
    quotient a divisor that is not the negative zero. *)
Lemma mul_agree (x y : spec_float) :
  valid_binary 53 1024 x = true -> valid_binary 53 1024 y = true ->
  feq (value_of (SFmul 53 1024 x y)) (mul (value_of x) (value_of y))
  /\ valid_binary 53 1024 (SFmul 53 1024 x y) = true.
Proof.
  intros Vx Vy.
  assert (H : feq (value_of (SFmul 53 1024 x y)) (mul (denote x) (denote y))
              /\ valid_binary 53 1024 (SFmul 53 1024 x y) = true).
  { destruct x as [sx|sx| |sx mx ex]; destruct y as [sy|sy| |sy my ey].
    - split; [|reflexivity]. cbn [SFmul denote value_of mul].
      apply zero_rounds. ring.
    - split; reflexivity.
    - split; reflexivity.
    - split; [|reflexivity]. cbn [SFmul denote value_of mul].
      apply zero_rounds. ring.
    - split; reflexivity.
    - split; reflexivity.
    - split; reflexivity.
    - (* infinity by finite *)
      split; [|reflexivity]. cbn [SFmul denote value_of mul].
      pose proof (signed_compare sy _ (abs_value_pos my ey)) as Hc.
      rewrite (negative_signed sy _ (abs_value_pos my ey)).
      destruct (signed sy (abs_value my ey) ?= 0); [contradiction| |]; reflexivity.
    - split; reflexivity.
    - split; reflexivity.
    - split; reflexivity.
    - split; reflexivity.
    - split; [|reflexivity]. cbn [SFmul denote value_of mul].
      apply zero_rounds. ring.
    - (* finite by infinity *)
      split; [|reflexivity]. cbn [SFmul denote value_of mul].
      pose proof (signed_compare sx _ (abs_value_pos mx ex)) as Hc.
      rewrite (negative_signed sx _ (abs_value_pos mx ex)).
      destruct (signed sx (abs_value mx ex) ?= 0); [contradiction| |];
        cbn; apply xorb_comm.
    - split; reflexivity.
    - (* finite by finite *)
      cbn [valid_binary] in Vx, Vy. unfold bounded in Vx, Vy.
      apply andb_prop in Vx, Vy. destruct Vx as [Cx _], Vy as [Cy _].
      apply (mul_finite sx sy mx my ex ey Cx Cy). }
  destruct H as [Hv Hvalid]. split; [|exact Hvalid].
  eapply feq_trans; [exact Hv|].
  apply mul_compat; apply feq_sym, denote_value_of.
Qed.

Lemma div_agree (x y : spec_float) :
  y <> S754_zero true ->
  feq (value_of (SFdiv 53 1024 x y)) (div (value_of x) (value_of y))
  /\ valid_binary 53 1024 (SFdiv 53 1024 x y) = true.
Proof.
  intros Hy.
  assert (H : feq (value_of (SFdiv 53 1024 x y)) (div (denote x) (denote y))
              /\ valid_binary 53 1024 (SFdiv 53 1024 x y) = true).
  { destruct x as [sx|sx| |sx mx ex]; destruct y as [[|]|sy| |sy my ey];
      try contradiction.
    - split; reflexivity.
    - split; reflexivity.
    - split; reflexivity.
    - (* zero by finite *)
      split; [|reflexivity]. cbn [SFdiv denote value_of div].
      pose proof (signed_compare sy _ (abs_value_pos my ey)) as Hc.
      destruct (signed sy (abs_value my ey) ?= 0); [contradiction| |];
        (eapply feq_sym, feq_trans;
         [apply (round_compat _ 0); unfold Qdiv; apply Qmult_0_l|apply feq_refl]).
    - (* infinity by zero *)
      split; [|reflexivity]. cbn. now destruct sx.
    - split; reflexivity.
    - split; reflexivity.
    - (* infinity by finite *)
      split; [|reflexivity]. cbn [SFdiv denote value_of div].
      rewrite (negative_signed sy _ (abs_value_pos my ey)). reflexivity.
    - split; reflexivity.
    - split; reflexivity.
    - split; reflexivity.
    - split; reflexivity.
    - (* finite by zero *)
      split; [|reflexivity]. cbn [SFdiv denote value_of div].
      change (0 ?= 0) with Eq. cbv iota.
      pose proof (signed_compare sx _ (abs_value_pos mx ex)) as Hc.
      rewrite (negative_signed sx _ (abs_value_pos mx ex)).
      destruct (signed sx (abs_value mx ex) ?= 0); [contradiction| |];
        cbn; now destruct sx.
    - split; reflexivity.
    - split; reflexivity.
    - (* finite by finite *)
      apply div_finite. }
  destruct H as [Hv Hvalid]. split; [|exact Hvalid].
  eapply feq_trans; [exact Hv|].
  apply div_compat; apply feq_sym, denote_value_of.
Qed.

(** *** The order of floats *)

Lemma below_le (x y : float) : below x y -> le x y.
Proof.
  destruct x as [p|[|]|], y as [q|[|]|]; cbn; try tauto; auto.
  apply Qlt_le_weak.
Qed.

Lemma feq_le (x y : float) : x <> NaN -> feq x y -> le x y.
Proof.
  intros Hx. destruct x as [p|[|]|], y as [q|[|]|]; cbn; try tauto; auto;
    try discriminate.
  intros E. rewrite E. apply Qle_refl.
Qed.

Lemma below_not_le (x y : float) : below y x -> ~ le x y.
Proof.
  destruct x as [p|[|]|], y as [q|[|]|]; cbn; try tauto; try lra;
    intros _ H; try discriminate; destruct H; discriminate.
Qed.

(** In canonical form the float with the smaller exponent is the
    smaller one. *)
Lemma canonical_lt (m1 m2 : positive) (e1 e2 : Z) :
  canonical_mantissa 53 1024 m1 e1 = true ->
  canonical_mantissa 53 1024 m2 e2 = true ->
  (e1 < e2)%Z -> abs_value m1 e1 < abs_value m2 e2.
Proof.
  intros C1 C2 He. apply canonical_exponent in C1, C2.
  destruct (abs_value_bounds m1 e1) as [_ U1].
  destruct (abs_value_bounds m2 e2) as [L2 _].
  eapply Qlt_le_trans; [exact U1|]. eapply Qle_trans; [|exact L2].
  apply pow2_le. unfold Float64.fexp in *. lia.
Qed.

Lemma same_exponent (m1 m2 : positive) (e : Z) :
  match (m1 ?= m2)%positive with
  | Lt => abs_value m1 e < abs_value m2 e
  | Eq => abs_value m1 e == abs_value m2 e
  | Gt => abs_value m2 e < abs_value m1 e
  end.
Proof.
  unfold abs_value. pose proof (pow2_pos e) as He.
  destruct (Pos.compare_spec m1 m2) as [E|E|E].
  - now subst.
  - apply Qmult_lt_compat_r; [exact He|]. rewrite <- Zlt_Qlt. lia.
  - apply Qmult_lt_compat_r; [exact He|]. rewrite <- Zlt_Qlt. lia.
Qed.

Lemma compare_magnitudes (m1 m2 : positive) (e1 e2 : Z) :
  canonical_mantissa 53 1024 m1 e1 = true ->
  canonical_mantissa 53 1024 m2 e2 = true ->
  match (match (e1 ?= e2)%Z with
         | Lt => Lt
         | Gt => Gt
         | Eq => Pos.compare_cont Eq m1 m2
         end) with
  | Lt => abs_value m1 e1 < abs_value m2 e2
  | Eq => abs_value m1 e1 == abs_value m2 e2
  | Gt => abs_value m2 e2 < abs_value m1 e1
  end.
Proof.
  intros C1 C2. destruct (Z.compare_spec e1 e2) as [E|E|E].
  - subst e2. apply same_exponent.
  - now apply canonical_lt.
  - now apply canonical_lt.
Qed.

(** [SFcompare] compares the values, for floats in canonical form. *)
Lemma compare_values (x y : spec_float) :
  valid_binary 53 1024 x = true -> valid_binary 53 1024 y = true ->
  match SFcompare x y with
  | Some Lt => below (denote x) (denote y)
  | Some Eq => feq (denote x) (denote y)
  | Some Gt => below (denote y) (denote x)
  | None => x = S754_nan \/ y = S754_nan
  end.
Proof.
  intros Vx Vy.
  destruct x as [sx|sx| |sx mx ex]; destruct y as [sy|sy| |sy my ey];
    cbn [SFcompare denote value_of].
  - cbn. reflexivity.
  - destruct sy; exact I.
  - now right.
  - pose proof (abs_value_pos my ey). destruct sy; cbn; lra.
  - destruct sx; exact I.
  - destruct sx, sy; cbn; auto.
  - now right.
  - destruct sx; exact I.
  - now left.
  - now left.
  - now left.
  - now left.
  - pose proof (abs_value_pos mx ex). destruct sx; cbn; lra.
  - destruct sy; exact I.
  - now right.
  - (* finite and finite *)
    cbn [valid_binary] in Vx, Vy. unfold bounded in Vx, Vy.
    apply andb_prop in Vx, Vy. destruct Vx as [Cx _], Vy as [Cy _].
    pose proof (abs_value_pos mx ex). pose proof (abs_value_pos my ey).
    pose proof (compare_magnitudes mx my ex ey Cx Cy) as Hc.
    destruct sx, sy; cbn [signed below feq].
    + destruct (match (ex ?= ey)%Z with
                | Lt => Lt | Gt => Gt | Eq => Pos.compare_cont Eq mx my
                end) eqn:E.
      * assert (E' : match (ex ?= ey)%Z with
                     | Lt => Gt | Gt => Lt
                     | Eq => CompOpp (Pos.compare_cont Eq mx my)
                     end = Eq)
          by (destruct (ex ?= ey)%Z; try discriminate; now rewrite E).
        rewrite E'. cbn. lra.
      * assert (E' : match (ex ?= ey)%Z with
                     | Lt => Gt | Gt => Lt
                     | Eq => CompOpp (Pos.compare_cont Eq mx my)
                     end = Gt)
          by (destruct (ex ?= ey)%Z; try discriminate; try reflexivity;
              now rewrite E).
        rewrite E'. cbn. lra.
      * assert (E' : match (ex ?= ey)%Z with
                     | Lt => Gt | Gt => Lt
                     | Eq => CompOpp (Pos.compare_cont Eq mx my)
                     end = Lt)
          by (destruct (ex ?= ey)%Z; try discriminate; try reflexivity;
              now rewrite E).
        rewrite E'. cbn. lra.
    + cbn. lra.
    + cbn. lra.
    + destruct (match (ex ?= ey)%Z with
                | Lt => Lt | Gt => Gt | Eq => Pos.compare_cont Eq mx my
                end); cbn; lra.
Qed.

Lemma leb_of_le (x y : spec_float) :
  valid_binary 53 1024 x = true -> valid_binary 53 1024 y = true ->
  le (value_of x) (value_of y) -> SFleb x y = true.
Proof.
  intros Vx Vy H.
  apply (le_compat _ (denote x) _ (denote y)) in H;
    try apply denote_value_of.
  pose proof (compare_values x y Vx Vy) as Hc. unfold SFleb.
  destruct (SFcompare x y) as [[| |]|]; try reflexivity; exfalso.
  - exact (below_not_le _ _ Hc H).
  - destruct Hc as [-> | ->]; cbn in H; [exact H|].
    destruct (denote x); exact H.
Qed.

Lemma le_of_leb (x y : spec_float) :
  valid_binary 53 1024 x = true -> valid_binary 53 1024 y = true ->
  SFleb x y = true -> le (denote x) (denote y).
Proof.
  intros Vx Vy. pose proof (compare_values x y Vx Vy) as Hc. unfold SFleb.
  destruct (SFcompare x y) as [[| |]|] eqn:E; try discriminate; intros _.
  - apply feq_le; [|exact Hc]. destruct x; discriminate.
  - now apply below_le.
Qed.

Lemma lt_of_ltb (x y : spec_float) :
  valid_binary 53 1024 x = true -> valid_binary 53 1024 y = true ->
  SFltb x y = true -> below (denote x) (denote y).
Proof.
  intros Vx Vy. pose proof (compare_values x y Vx Vy) as Hc. unfold SFltb.
  destruct (SFcompare x y) as [[| |]|]; try discriminate; intros _. exact Hc.
Qed.

End StandardLibraryFloats.

(** ** [mode] in binary64 *)

Section Mode.

Import Py Float64 RoundingSteps.
Local Open Scope Q_scope.

(** *** [mode] on floats by value *)

Lemma mode_compat (x y : float) : feq x y -> feq (mode x) (mode y).
Proof.
  intros E. unfold mode. cbv zeta.
  apply div_compat; [apply feq_refl|].
  apply mul_compat; [exact E|apply feq_refl].
Qed.

(** [mode] does not rise from a positive float [l1] to anything above
    it, [inf] included, and is nowhere negative there. *)
Lemma mode_order (l1 : Q) (y : float) :
  pow2 (-1074) <= l1 -> le (Fin l1) y ->
  le (mode y) (mode (Fin l1)) /\ le (Fin 0) (mode y).
Proof.
  intros Hmin Hy.
  destruct four_pi as (p & Ep & Hp).
  destruct mode_conversion_value as (c & Ec & Hc).
  destruct smallest_float as (v & Ev & Hv).
  unfold mode. cbv zeta. rewrite Ep, Ec.
  assert (Hc0 : 0 <= c) by lra.
  assert (H1 : 0 < l1) by (eapply Qlt_le_trans; [apply (pow2_pos (-1074))|exact Hmin]).
  change (mul (Fin l1) (Fin c)) with (round (l1 * c)).
  assert (Hy1 : le (Fin v) (round (l1 * c))).
  { rewrite <- Ev. apply round_mono; [apply Qlt_le_weak, pow2_pos|].
    rewrite <- (Qmult_1_r (pow2 (-1074))).
    apply Qmult_le_compat_nonneg; split; try assumption;
      try apply Qlt_le_weak, pow2_pos. discriminate. }
  assert (Hy12 : le (round (l1 * c)) (mul y (Fin c))).
  { destruct y as [l2|t|]; [| |contradiction]; cbn [le] in Hy.
    - change (mul (Fin l2) (Fin c)) with (round (l2 * c)).
      apply round_mono.
      + apply Qmult_le_0_compat; [now apply Qlt_le_weak|exact Hc0].
      + apply Qmult_le_compat_r; assumption.
    - subst t. cbn [mul].
      assert (Hg : (c ?= 0) = Gt) by (rewrite <- Qgt_alt; lra).
      rewrite Hg, (negative_pos c) by lra. apply le_round_inf. }
  exact (div_antitone p v _ _ (Qlt_le_weak _ _ Hp) Hv Hy1 Hy12).
Qed.

(** *** [mode] on the floats of the Standard Library *)

Lemma round_aux_sign (m e : Z) (l : location) :
  binary_round_aux 53 1024 false m e l <> S754_zero true.
Proof.
  rewrite binary_round_aux_unfold. cbv zeta. unfold finish.
  match goal with
  | |- context [match ?z with Z0 => _ | Zpos _ => _ | Zneg _ => _ end] =>
      destruct z
  end; try discriminate.
  match goal with |- context [if ?b then _ else _] => destruct b end;
    discriminate.
Qed.

Lemma mul_sign (x : spec_float) (m : positive) (e : Z) :
  sign_nonneg x -> SFmul 53 1024 x (S754_finite false m e) <> S754_zero true.
Proof.
  destruct x as [s|s| |s mx ex]; cbn [sign_nonneg SFmul]; try discriminate.
  - intros ->. discriminate.
  - intros ->. apply round_aux_sign.
Qed.

Lemma mode_agree (l : spec_float) :
  valid_binary 53 1024 l = true -> sign_nonneg l ->
  feq (value_of (Binary64.mode l)) (mode (value_of l))
  /\ valid_binary 53 1024 (Binary64.mode l) = true.
Proof.
  intros Vl Sl. unfold Binary64.mode, mode. cbv zeta.
  unfold Binary64.mul, Binary64.div.
  change (SFmul Binary64.prec Binary64.emax Binary64.const_parsec
            (Binary64.float 1000000 0))
    with (S754_finite false 7356828645447176 22).
  change (SFmul Binary64.prec Binary64.emax (Binary64.float 4 0) Binary64.np_pi)
    with (S754_finite false 7074237752028440 (-49)).
  change Binary64.prec with 53%Z. change Binary64.emax with 1024%Z.
  destruct (mul_agree l (S754_finite false 7356828645447176 22) Vl eq_refl)
    as [Hm Vm].
  destruct (div_agree (S754_finite false 7074237752028440 (-49))
              (SFmul 53 1024 l (S754_finite false 7356828645447176 22))
              (mul_sign l _ _ Sl)) as [Hd Vd].
  split; [|exact Vd].
  eapply feq_trans; [exact Hd|]. apply div_compat.
  - apply same_feq. vm_compute. reflexivity.
  - eapply feq_trans; [exact Hm|]. apply mul_compat; [apply feq_refl|].
    apply same_feq. vm_compute. reflexivity.
Qed.

(** A positive float of the Standard Library. *)
Lemma positive_float (x : spec_float) :
  valid_binary 53 1024 x = true -> SFltb (S754_zero false) x = true ->
  x = S754_infinity false
  \/ exists m e, x = S754_finite false m e /\ pow2 (-1074) <= abs_value m e.
Proof.
  intros Vx Hx. destruct x as [s|[|]| |[|] m e]; try discriminate.
  - now left.
  - right. exists m, e. split; [reflexivity|].
    cbn [valid_binary] in Vx. unfold bounded in Vx.
    apply andb_prop in Vx. destruct Vx as [Cx _].
    apply canonical_exponent in Cx.
    eapply Qle_trans; [apply (pow2_le (-1074) e); unfold Float64.fexp in Cx; lia|].
    unfold abs_value. rewrite <- (Qmult_1_l (pow2 e)) at 1.
    apply Qmult_le_compat_r; [|apply Qlt_le_weak, pow2_pos].
    change 1 with (inject_Z 1). rewrite <- Zle_Qle. lia.
Qed.

Lemma above_positive (q : Q) (y : spec_float) :
  0 < q -> below (Fin q) (denote y) -> sign_nonneg y.
Proof.
  intros Hq. destruct y as [s|[|]| |[|] m e]; cbn; auto; try tauto.
  - lra.
  - pose proof (abs_value_pos m e). lra.
Qed.

(** The mode of a positive float is a finite float, and not negative. *)
Lemma mode_finite (y : float) :
  le (Fin (pow2 (-1074))) y -> exists w, mode y = Fin w /\ 0 <= w.
Proof.
  intros Hy.
  destruct (mode_order (pow2 (-1074)) y (Qle_refl _) Hy) as [Hup H0].
  assert (Htop : match mode (Fin (pow2 (-1074))) with
                 | Fin _ => true
                 | _ => false
                 end = true) by (vm_compute; reflexivity).
  destruct (mode (Fin (pow2 (-1074)))) as [w0| |]; try discriminate Htop.
  destruct (mode y) as [w|[|]|]; unfold le in Hup, H0;
    try discriminate; try contradiction.
  now exists w.
Qed.

Lemma positive_denote (x : spec_float) :
  valid_binary 53 1024 x = true -> SFltb (S754_zero false) x = true ->
  le (Fin (pow2 (-1074))) (denote x) /\ sign_nonneg x
  /\ x <> S754_zero true.
Proof.
  intros Vx Hx. destruct (positive_float x Vx Hx) as [->|(m & e & -> & Hmin)].
  - repeat split; discriminate.
  - repeat split; [exact Hmin|discriminate].
Qed.

(** C5, amended.  Computed in binary64 as the code computes it, [mode]
    is decreasing in the wavelength in the weak sense: for floats
    [0 < l1 < l2] ([l2] may be [inf]), [mode l1 >= mode l2]; and so is
    [mode l / a] for every fixed scale factor [a > 0]. *)
Theorem mode_weakly_decreasing (l1 l2 : spec_float) :
  valid_binary Binary64.prec Binary64.emax l1 = true ->
  valid_binary Binary64.prec Binary64.emax l2 = true ->
  SFltb (Binary64.float 0 0) l1 = true -> SFltb l1 l2 = true ->
  SFleb (Binary64.mode l2) (Binary64.mode l1) = true
  /\ (forall a : spec_float,
         valid_binary Binary64.prec Binary64.emax a = true ->
         Binary64.is_finite a = true ->
         SFltb (Binary64.float 0 0) a = true ->
         SFleb (Binary64.div (Binary64.mode l2) a)
               (Binary64.div (Binary64.mode l1) a) = true).
Proof.
  change Binary64.prec with 53%Z. change Binary64.emax with 1024%Z.
  change (Binary64.float 0 0) with (S754_zero false).
  intros V1 V2 H1 H12.
  pose proof (lt_of_ltb l1 l2 V1 V2 H12) as Hlt.
  destruct (positive_float l1 V1 H1) as [->|(m1 & e1 & -> & Hmin)];
    [destruct (denote l2) as [?|[|]|]; contradiction|].
  cbn [denote signed] in Hlt.
  pose proof (abs_value_pos m1 e1) as Hq1.
  pose proof (above_positive _ l2 Hq1 Hlt) as S2.
  destruct (mode_agree (S754_finite false m1 e1) V1 eq_refl) as [A1 W1].
  destruct (mode_agree l2 V2 S2) as [A2 W2].
  destruct (mode_order (abs_value m1 e1) (denote l2) Hmin (below_le _ _ Hlt))
    as [Hm H0].
  assert (E1 : feq (value_of (Binary64.mode (S754_finite false m1 e1)))
                   (mode (Fin (abs_value m1 e1)))).
  { eapply feq_trans; [exact A1|]. apply mode_compat.
    apply (denote_value_of (S754_finite false m1 e1)). }
  assert (E2 : feq (value_of (Binary64.mode l2)) (mode (denote l2))).
  { eapply feq_trans; [exact A2|]. apply mode_compat, denote_value_of. }
  split.
  - apply leb_of_le; try assumption.
    eapply le_compat; [apply feq_sym, E2|apply feq_sym, E1|exact Hm].
  - intros a Va Fa Ha.
    destruct (positive_float a Va Ha) as [->|(ma & ea & -> & _)];
      [discriminate Fa|].
    pose proof (abs_value_pos ma ea) as Hqa.
    unfold Binary64.div.
    change Binary64.prec with 53%Z. change Binary64.emax with 1024%Z.
    destruct (div_agree (Binary64.mode (S754_finite false m1 e1))
                (S754_finite false ma ea) ltac:(discriminate)) as [D1 X1].
    destruct (div_agree (Binary64.mode l2)
                (S754_finite false ma ea) ltac:(discriminate)) as [D2 X2].
    apply leb_of_le; try assumption.
    pose proof (denote_value_of (S754_finite false ma ea)) as Ea.
    cbn [denote signed] in Ea.
    eapply le_compat;
      [apply feq_sym; eapply feq_trans; [exact D2|apply div_compat; [exact E2|exact Ea]]
      |apply feq_sym; eapply feq_trans; [exact D1|apply div_compat; [exact E1|exact Ea]]
      |].
    apply div_monotone; assumption.
Qed.

Lemma mode_weakly_decreasing_witness :
  SFleb (Binary64.mode (Binary64.float 100 0))
        (Binary64.mode (Binary64.float 1 0)) = true
  /\ SFleb (Binary64.div (Binary64.mode (Binary64.float 100 0))
                         (Binary64.float 1 (-10)))
           (Binary64.div (Binary64.mode (Binary64.float 1 0))
                         (Binary64.float 1 (-10))) = true.
Proof.
  destruct (mode_weakly_decreasing (Binary64.float 1 0) (Binary64.float 100 0))
    as [Hm Ha]; try reflexivity.
  split; [exact Hm|]. apply Ha; reflexivity.
Defined.

(** C5, as stated, fails on the floats the script works with: the two
    neighbouring wavelengths [wavelength_lo < wavelength_hi] are
    positive and get the same [mode]. *)
Lemma mode_binary64_not_strict :
  SFltb (Binary64.float 0 0) Binary64.wavelength_lo = true
  /\ SFltb Binary64.wavelength_lo Binary64.wavelength_hi = true
  /\ SFltb (Binary64.mode Binary64.wavelength_hi)
           (Binary64.mode Binary64.wavelength_lo) = false
  /\ SFeqb (Binary64.mode Binary64.wavelength_lo)
           (Binary64.mode Binary64.wavelength_hi) = true.
Proof. repeat split; vm_compute; reflexivity. Qed.

(** The binary64 model agrees with the interpreter on the wavelengths
    the script plots: [mode(1)] is [8661214237654446 * 2^-124]. *)
Lemma mode_binary64_at_1 :
  Binary64.mode (Binary64.float 1 0)
  = S754_finite false 8661214237654446 (-124).
Proof. vm_compute; reflexivity. Qed.

End Mode.

(** ** [get_aspect] in binary64 *)

Section GetAspectBinary64.

Import Py Binary64 GetAspect.










End GetAspectBinary64.

(** * Further properties *)

(** ** [convert_bytes]: the two modes, the unit chosen, the large inputs *)

Section ConvertBytesMore.

Import Py PipelineDataSize.
Local Open Scope Z_scope.
Local Open Scope string_scope.

(** Whatever the mode, a string comes back exactly when the loop has a
    reading. *)
Lemma convert_loop_returns_reading (rest : list string) :
  forall (i : nat) (num : number) (unit_only : bool) (s : string),
    convert_loop rest num unit_only = Return s ->
    exists j num', reading_loop rest i num = Some (j, num').
Proof.
  induction rest as [|unit rest IH]; intros i num uo s H; cbn in H |- *.
  - discriminate.
  - destruct (lt num 1024%Q); [eauto|].
    destruct (truediv num 1024%Q) as [num1|e]; [|discriminate].
    eapply IH; eassumption.
Qed.

Lemma format_3_1f_outcomes (num : number) :
  format_3_1f num = Err OverflowError
  \/ exists x, to_float num = Ok x /\ format_3_1f num = Ok (fixed_3_1f x).
Proof.
  unfold format_3_1f. destruct num as [n|x]; cbn [to_float].
  - unfold float_of_int.
    destruct (2 ^ 1024 <=? round_significand (Z.abs n))%Z; cbn [bind]; eauto.
  - right. eauto.
Qed.

(** X1.  The two modes of [convert_bytes] agree: the label returned
    with [unit_only] is one of the six units, and a full string is some
    number in [3.1f] format, a blank and that same label; the only way
    for the full mode to differ is to raise [OverflowError] while
    formatting. *)
Theorem convert_bytes_modes_agree (num : number) :
  (forall u, convert_bytes num true = Return u ->
     In u units
     /\ (convert_bytes num false = Raise OverflowError
         \/ exists x, convert_bytes num false
                      = Return (fixed_3_1f x ++ " " ++ u)))
  /\ (forall s, convert_bytes num false = Return s ->
        exists u x, In u units
                    /\ convert_bytes num true = Return u
                    /\ s = fixed_3_1f x ++ " " ++ u).
Proof.
  unfold convert_bytes. split.
  - intros u Hu.
    destruct (convert_loop_returns_reading _ 0%nat _ _ _ Hu) as (j & num' & Hr).
    destruct (convert_loop_reading _ _ _ _ _ Hr) as (u' & Hnth & _ & _ & Ht & Hf).
    rewrite Ht in Hu. injection Hu as <-.
    split; [eapply nth_error_In; eassumption|].
    rewrite Hf.
    destruct (format_3_1f_outcomes num') as [-> | (x & _ & ->)]; eauto.
  - intros s Hs.
    destruct (convert_loop_returns_reading _ 0%nat _ _ _ Hs) as (j & num' & Hr).
    destruct (convert_loop_reading _ _ _ _ _ Hr) as (u & Hnth & _ & _ & Ht & Hf).
    rewrite Hf in Hs.
    destruct (format_3_1f_outcomes num') as [E | (x & _ & E)];
      rewrite E in Hs; [discriminate|].
    injection Hs as <-. exists u, x.
    split; [eapply nth_error_In; eassumption|]. auto.
Qed.

Lemma convert_bytes_modes_agree_witness :
  (In "MB" units
   /\ (convert_bytes (PyInt 123456789) false = Raise OverflowError
       \/ exists x, convert_bytes (PyInt 123456789) false
                    = Return (fixed_3_1f x ++ " " ++ "MB")))
  /\ (exists u x, In u units
                  /\ convert_bytes (PyInt 123456789) true = Return u
                  /\ "117.7 MB" = fixed_3_1f x ++ " " ++ u).
Proof.
  destruct (convert_bytes_modes_agree (PyInt 123456789)) as [Hu Hs]. split.
  - apply (Hu "MB"). vm_compute. reflexivity.
  - apply (Hs "117.7 MB"). vm_compute. reflexivity.
Defined.

(** *** Inputs too large for the six units *)

Lemma convert_loop_float_none (rest : list string) :
  forall (i : nat) (x : Q) (unit_only : bool),
    reading_loop rest i (PyFloat x) = None ->
    convert_loop rest (PyFloat x) unit_only = ReturnNone.
Proof.
  induction rest as [|unit rest IH]; intros i x uo H; cbn in H |- *.
  - reflexivity.
  - destruct (lt (PyFloat x) 1024%Q); [discriminate|].
    now apply (IH (S i)).
Qed.

Lemma convert_loop_cons (unit : string) (rest : list string) (num : number)
      (unit_only : bool) :
  convert_loop (unit :: rest) num unit_only
  = if lt num 1024%Q then
      if unit_only then Return unit
      else match format_3_1f num with
           | Ok s => Return (s ++ " " ++ unit)
           | Err e => Raise e
           end
    else match truediv num 1024%Q with
         | Ok num' => convert_loop rest num' unit_only
         | Err e => Raise e
         end.
Proof. reflexivity. Qed.

(** X2.  From [1024^6 - 64] bytes on, [convert_bytes] gives no string in
    either mode: it returns [None] while the int still has a float
    (below [2^1024 - 2^970]) and raises [OverflowError] beyond. *)
Theorem convert_bytes_large (n : Z) (unit_only : bool) :
  1024 ^ 6 - 64 <= n ->
  (n < 2 ^ 1024 - 2 ^ 970 -> convert_bytes (PyInt n) unit_only = ReturnNone)
  /\ (2 ^ 1024 - 2 ^ 970 <= n ->
      convert_bytes (PyInt n) unit_only = Raise OverflowError).
Proof.
  intros Hn.
  pose proof (float_of_int_overflow n) as Hov.
  pose proof (reading_none_from_exbibyte n Hn) as Hnone.
  rewrite Z.abs_eq in Hov by lia.
  revert Hov. generalize (2 ^ 1024 - 2 ^ 970). intros T Hov.
  assert (Hge : lt (PyInt n) 1024%Q = false).
  { apply lt_false. cbn. change 1024%Q with (inject_Z 1024).
    rewrite <- Zle_Qle. lia. }
  unfold convert_bytes, units. rewrite convert_loop_cons, Hge.
  unfold reading, units in Hnone. rewrite reading_loop_cons, Hge in Hnone.
  unfold truediv in *. cbn [to_float] in *. split.
  - intros Hlt. destruct (float_of_int n) as [x|e] eqn:Fn.
    + cbn [bind] in *. eapply convert_loop_float_none. exact Hnone.
    + exfalso. assert (e = OverflowError) as ->.
      { unfold float_of_int in Fn.
        destruct (2 ^ 1024 <=? round_significand (Z.abs n))%Z; congruence. }
      apply (Z.lt_irrefl n). eapply Z.lt_le_trans; [exact Hlt|].
      now apply Hov.
  - intros Hbig. apply Hov in Hbig. now rewrite Hbig.
Qed.

Lemma convert_bytes_large_witness :
  convert_bytes (PyInt (2 ^ 70)) false = ReturnNone
  /\ convert_bytes (PyInt (2 ^ 1024)) true = Raise OverflowError.
Proof.
  split.
  - apply (convert_bytes_large (2 ^ 70) false); vm_compute; congruence.
  - apply (convert_bytes_large (2 ^ 1024) true); vm_compute; congruence.
Defined.

(** *** Which unit is chosen *)

Lemma pow_1024_Q (j : nat) :
  (inject_Z (1024 ^ Z.of_nat (S j)) == 1024 * inject_Z (1024 ^ Z.of_nat j))%Q.
Proof. rewrite Nat2Z.inj_succ, Z.pow_succ_r by lia. apply scale_step. Qed.

Lemma pow_1024_ge_1 (j : nat) : (1 <= inject_Z (1024 ^ Z.of_nat j))%Q.
Proof.
  change 1%Q with (inject_Z 1). rewrite <- Zle_Qle.
  pose proof (Z.pow_pos_nonneg 1024 (Z.of_nat j) ltac:(lia) ltac:(lia)). lia.
Qed.

(** A float between [1024^j] and [1024^(j+1)] stops [j] units further,
    on its quotient by [1024^j], a value from 1 up to, not including,
    1024. *)
Lemma reading_loop_unit (j : nat) :
  forall (rest : list string) (i : nat) (x : Q),
    (j < List.length rest)%nat ->
    (inject_Z (1024 ^ Z.of_nat j) <= x)%Q ->
    (x < inject_Z (1024 ^ Z.of_nat (S j)))%Q ->
    exists y, reading_loop rest i (PyFloat x) = Some ((i + j)%nat, PyFloat y)
              /\ (y == x / inject_Z (1024 ^ Z.of_nat j))%Q
              /\ (1 <= y)%Q /\ (y < 1024)%Q.
Proof.
  induction j as [|j IH]; intros rest i x Hlen Hlo Hhi;
    (destruct rest as [|unit rest]; [cbn in Hlen; lia|]);
    rewrite reading_loop_cons.
  - assert (Hlt : lt (PyFloat x) 1024%Q = true) by (apply lt_spec; exact Hhi).
    rewrite Hlt, Nat.add_0_r. exists x.
    repeat split; [|exact Hlo|exact Hhi].
    change (inject_Z (1024 ^ Z.of_nat 0)) with 1%Q. field.
  - pose proof (pow_1024_ge_1 j) as H1.
    pose proof (pow_1024_Q j) as E.
    rewrite E in Hlo. rewrite (pow_1024_Q (S j)), E in Hhi.
    assert (Hge : lt (PyFloat x) 1024%Q = false) by (apply lt_false; cbn; lra).
    rewrite Hge. cbn [truediv to_float bind].
    destruct (IH rest (S i) (x / 1024)%Q) as (y & Hy & Hv & Hb).
    + cbn in Hlen. lia.
    + apply Qle_shift_div_l; [reflexivity|]. lra.
    + apply Qlt_shift_div_r; [reflexivity|]. rewrite E. lra.
    + exists y. replace (i + S j)%nat with (S i + j)%nat by lia.
      split; [exact Hy|]. split; [|exact Hb].
      rewrite Hv, E. field. lra.
Qed.

Lemma round_significand_below_unit (k : nat) (n : Z) :
  (k <= 5)%nat -> 0 <= n < 1024 ^ Z.of_nat (S k) -> n < 1024 ^ 6 - 64 ->
  round_significand n < 1024 ^ Z.of_nat (S k).
Proof.
  intros Hk [Hn Hlt] Htop.
  destruct (Z.lt_ge_cases n (2 ^ 53)) as [Hsmall|Hbig].
  - now rewrite round_significand_small by lia.
  - assert (k = 5%nat) as ->.
    { destruct (Nat.eq_dec k 5) as [|Hne]; [assumption|exfalso].
      assert (1024 ^ Z.of_nat (S k) <= 1024 ^ 5)
        by (apply Z.pow_le_mono_r; lia).
      assert (1024 ^ 5 < 2 ^ 53) by reflexivity. lia. }
    assert (round_significand n <= round_significand (1024 ^ 6 - 65))
      by (apply round_significand_mono; lia).
    assert (round_significand (1024 ^ 6 - 65) < 1024 ^ Z.of_nat 6)
      by reflexivity.
    lia.
Qed.

Lemma tenths_1 : tenths 1 = 10.
Proof. reflexivity. Qed.

Lemma tenths_1024 : tenths 1024 = 10240.
Proof. reflexivity. Qed.

(** X3.  The unit follows the magnitude: an int [n] with
    [1024^k <= n < 1024^(k+1)] ([k] from 0 to 5, [n] below
    [1024^6 - 64]) is given unit number [k]; the number in front of it is
    [float(n) / 1024^k], which is [n / 1024^k] itself below [2^53], and
    lies between 1 and 1024, so that between "1.0" and "1024.0" is
    shown. *)
Theorem convert_bytes_unit_of_magnitude (k : nat) (n : Z) :
  (k <= 5)%nat ->
  1024 ^ Z.of_nat k <= n < 1024 ^ Z.of_nat (S k) ->
  n < 1024 ^ 6 - 64 ->
  convert_bytes (PyInt n) true = Return (nth k units "")
  /\ exists v : Q,
      convert_bytes (PyInt n) false
      = Return (fixed_3_1f v ++ " " ++ nth k units "")
      /\ (v == inject_Z (round_significand n)
               / inject_Z (1024 ^ Z.of_nat k))%Q
      /\ (n < 2 ^ 53 -> (v == inject_Z n / inject_Z (1024 ^ Z.of_nat k))%Q)
      /\ (1 <= v)%Q /\ (v < 1024)%Q
      /\ 10 <= tenths v <= 10240.
Proof.
  intros Hk [Hlo Hhi] Htop.
  assert (Hpos : 1 <= 1024 ^ Z.of_nat k)
    by (pose proof (Z.pow_pos_nonneg 1024 (Z.of_nat k) ltac:(lia) ltac:(lia));
        lia).
  assert (Hread : exists v, reading (PyInt n) = Some (k, v)
                            /\ (value v == inject_Z (round_significand n)
                                           / inject_Z (1024 ^ Z.of_nat k))%Q
                            /\ (1 <= value v)%Q /\ (value v < 1024)%Q).
  { unfold reading, units. rewrite reading_loop_cons.
    destruct k as [|k].
    - assert (Hlt : lt (PyInt n) 1024%Q = true).
      { apply lt_spec. cbn. change 1024%Q with (inject_Z 1024).
        rewrite <- Zlt_Qlt. exact Hhi. }
      rewrite Hlt. exists (PyInt n). cbn [value].
      split; [reflexivity|]. split.
      + rewrite round_significand_small.
        * change (inject_Z (1024 ^ Z.of_nat 0)) with 1%Q. field.
        * assert (1024 ^ Z.of_nat 1 < 2 ^ 53) by reflexivity. lia.
      + change 1%Q with (inject_Z 1). change 1024%Q with (inject_Z 1024).
        rewrite <- Zle_Qle, <- Zlt_Qlt. auto.
    - assert (H1024 : 1024 <= 1024 ^ Z.of_nat (S k)).
      { change 1024 with (1024 ^ 1) at 1. apply Z.pow_le_mono_r; lia. }
      assert (Hge : lt (PyInt n) 1024%Q = false).
      { apply lt_false. cbn. change 1024%Q with (inject_Z 1024).
        rewrite <- Zle_Qle. lia. }
      rewrite Hge. unfold truediv. cbn [to_float].
      pose proof (round_significand_below_unit (S k) n Hk ltac:(lia) Htop) as Hr.
      assert (Hr' : 1024 ^ Z.of_nat (S k) <= round_significand n).
      { rewrite <- (round_significand_small (1024 ^ Z.of_nat (S k))).
        - apply round_significand_mono. lia.
        - split; [lia|].
          assert (1024 ^ Z.of_nat (S k) <= 1024 ^ 5)
            by (apply Z.pow_le_mono_r; lia).
          assert (1024 ^ 5 < 2 ^ 53) by reflexivity. lia. }
      unfold float_of_int. rewrite Z.abs_eq, Z.sgn_pos, Z.mul_1_l by lia.
      destruct (Z.leb_spec (2 ^ 1024) (round_significand n)) as [Hov|_].
      { exfalso.
        assert (1024 ^ Z.of_nat (S (S k)) <= 1024 ^ 6)
          by (apply Z.pow_le_mono_r; lia).
        assert (1024 ^ 6 < 2 ^ 1024) by reflexivity. lia. }
      cbn [bind].
      pose proof (pow_1024_ge_1 k) as Hk1.
      destruct (reading_loop_unit k ["KB"; "MB"; "GB"; "TB"; "PB"] 1%nat
                  (inject_Z (round_significand n) / 1024)%Q)
        as (y & Hy & Hv & Hy1 & Hy2).
      + cbn [List.length]. lia.
      + apply Qle_shift_div_l; [reflexivity|].
        rewrite Qmult_comm, <- pow_1024_Q, <- Zle_Qle. exact Hr'.
      + apply Qlt_shift_div_r; [reflexivity|].
        rewrite Qmult_comm, <- pow_1024_Q, <- Zlt_Qlt. exact Hr.
      + exists (PyFloat y). cbn [value]. split; [exact Hy|].
        split; [|auto]. rewrite Hv, (pow_1024_Q k). field. lra. }
  destruct Hread as (v & Hread & Hval & Hv1 & Hv2).
  destruct (reading_output _ _ _ Hread) as [Ht Hf].
  destruct (reading_of_byte_count n k v ltac:(lia) Hread) as [_ Hfmt].
  rewrite Hfmt in Hf. split; [exact Ht|].
  exists (value v). split; [exact Hf|]. split; [exact Hval|].
  split; [|split; [exact Hv1|split; [exact Hv2|split]]].
  - intros Hsmall. rewrite Hval, round_significand_small by lia. reflexivity.
  - rewrite <- tenths_1. apply tenths_mono; lra.
  - rewrite <- tenths_1024. apply tenths_mono; lra.
Qed.

Lemma convert_bytes_unit_of_magnitude_witness :
  convert_bytes (PyInt 1048575) true = Return "KB"
  /\ exists v : Q,
      convert_bytes (PyInt 1048575) false = Return (fixed_3_1f v ++ " KB")
      /\ (v == inject_Z (round_significand 1048575) / inject_Z (1024 ^ 1))%Q
      /\ (1048575 < 2 ^ 53 -> (v == inject_Z 1048575 / inject_Z (1024 ^ 1))%Q)
      /\ (1 <= v)%Q /\ (v < 1024)%Q /\ 10 <= tenths v <= 10240.
Proof.
  apply (convert_bytes_unit_of_magnitude 1 1048575).
  - lia.
  - vm_compute. split; congruence.
  - vm_compute. reflexivity.
Defined.

(** The upper end is reached: one byte short of a mebibyte reads
    "1024.0 KB". *)
Lemma convert_bytes_shows_1024 :
  convert_bytes (PyInt (1024 ^ 2 - 1)) false = Return "1024.0 KB".
Proof. vm_compute. reflexivity. Qed.

(** *** Bytes below one kibibyte *)

Lemma string_length_app (s t : string) :
  String.length (s ++ t) = (String.length s + String.length t)%nat.
Proof. induction s as [|c s IH]; cbn; [reflexivity|now rewrite IH]. Qed.

Lemma string_app_assoc (s t u : string) : (s ++ t) ++ u = s ++ t ++ u.
Proof. induction s as [|c s IH]; cbn; [reflexivity|now rewrite IH]. Qed.

Lemma decimal_nonempty (z : Z) : (1 <= String.length (decimal z))%nat.
Proof.
  unfold decimal, NilZero.string_of_uint.
  destruct (N.to_uint (Z.to_N z)); cbn; lia.
Qed.

(** The width 3 of the format never pads: sign, digits, point and digit
    already fill it. *)
Lemma fixed_3_1f_unpadded (x : Q) :
  fixed_3_1f x
  = (match Qcompare x 0%Q with Lt => "-" | _ => EmptyString end)
    ++ decimal (tenths x / 10) ++ "." ++ decimal (tenths x mod 10).
Proof.
  unfold fixed_3_1f. cbv zeta.
  set (body := _ ++ _ ++ "." ++ _).
  assert (Hlen : (3 <= String.length body)%nat).
  { unfold body. rewrite !string_length_app.
    pose proof (decimal_nonempty (tenths x / 10)).
    pose proof (decimal_nonempty (tenths x mod 10)).
    cbn [String.length]. lia. }
  replace (3 - String.length body)%nat with 0%nat by lia. reflexivity.
Qed.

Lemma tenths_int (n : Z) : 0 <= n -> tenths (inject_Z n) = 10 * n.
Proof.
  intros Hn. unfold tenths.
  rewrite (round_half_even_eq _ (inject_Z (10 * n))).
  - apply round_half_even_Z.
  - rewrite Qabs_pos by (change 0%Q with (inject_Z 0); now rewrite <- Zle_Qle).
    rewrite inject_Z_mult. ring.
Qed.

(** X4.  A count below 1024 is shown as it is: for [0 <= n < 1024],
    [convert_bytes(n)] is the decimal digits of [n] followed by
    ".0 bytes". *)
Theorem convert_bytes_below_kibibyte (n : Z) :
  0 <= n < 1024 ->
  convert_bytes (PyInt n) false = Return (decimal n ++ ".0 bytes").
Proof.
  intros [Hn Hlt]. unfold convert_bytes, units. rewrite convert_loop_cons.
  assert (Hsmall : lt (PyInt n) 1024%Q = true).
  { apply lt_spec. cbn. change 1024%Q with (inject_Z 1024).
    now rewrite <- Zlt_Qlt. }
  rewrite Hsmall. unfold format_3_1f. cbn [to_float].
  rewrite float_of_int_small
    by (assert (1024 < 2 ^ 53) by reflexivity; lia).
  cbn [bind]. rewrite fixed_3_1f_unpadded, tenths_int by assumption.
  replace (10 * n / 10) with n
    by (rewrite Z.mul_comm, Z.div_mul; lia).
  replace (10 * n mod 10) with 0
    by (rewrite Z.mul_comm, Z.mod_mul; lia).
  assert (Hsign : (inject_Z n ?= 0)%Q <> Lt).
  { rewrite <- Qlt_alt. apply Qle_not_lt.
    change 0%Q with (inject_Z 0). now rewrite <- Zle_Qle. }
  change (decimal 0) with "0".
  destruct (inject_Z n ?= 0)%Q; try contradiction;
    cbn [append]; rewrite string_app_assoc; reflexivity.
Qed.

Lemma convert_bytes_below_kibibyte_witness :
  convert_bytes (PyInt 205) false = Return "205.0 bytes".
Proof. apply (convert_bytes_below_kibibyte 205). lia. Defined.

End ConvertBytesMore.

(** ** The plotting loop of pipeline_data_size.py on any tables *)

Section PlotLoopMore.

Import Py PipelineDataSize PipelineFigure.
Local Open Scope Z_scope.

(** X5.  On tables of unequal length the loop runs as many turns as
    the shortest of the four tables has entries, where [zip] stops: with
    the drawing calls taken to succeed, it draws that many cumulative
    markers, and the total it ends on is the sum of that many leading
    sizes only. *)
Theorem plot_loop_truncates (ys : list nat) (xs : list Z) (cs ls : list string) :
  let m := Nat.min (Nat.min (List.length ys) (List.length xs))
                   (Nat.min (List.length cs) (List.length ls)) in
  let st := plot_loop (zip4 ys xs cs ls) in
  List.length (cumulative_markers st) = m
  /\ x_cumsum st = sum (firstn m xs).
Proof.
  cbn zeta. unfold plot_loop.
  destruct (plot_loop_from (zip4 ys xs cs ls)
              {| x_cumsum := 0; cumulative_markers := [] |}) as [Hx Hm].
  cbn zeta in Hx, Hm. rewrite Hx, Hm. cbn [x_cumsum cumulative_markers app].
  rewrite length_map, length_seq, zip4_row_x, zip4_length. split; [reflexivity|lia].
Qed.

Lemma sum_firstn_succ (xs : list Z) :
  forall i : nat,
    sum (firstn (S i) xs) = sum (firstn i xs) + nth i xs 0.
Proof.
  induction xs as [|x xs IH]; intros i.
  - rewrite !firstn_nil. destruct i; reflexivity.
  - destruct i as [|i].
    + cbn. lia.
    + change (sum (firstn (S (S i)) (x :: xs)))
        with (x + sum (firstn (S i) xs)).
      change (sum (firstn (S i) (x :: xs))) with (x + sum (firstn i xs)).
      cbn [nth]. rewrite IH. lia.
Qed.

Lemma nth_map_seq {A : Type} (f : nat -> A) (d : A) :
  forall (n s j : nat),
    (j < n)%nat -> nth j (map f (seq s n)) d = f (s + j)%nat.
Proof.
  induction n as [|n IH]; intros s j Hj; [lia|].
  cbn [seq map]. destruct j as [|j]; cbn [nth].
  - f_equal. lia.
  - rewrite IH by lia. f_equal. lia.
Qed.

Lemma nth_nonneg (xs : list Z) (i : nat) :
  Forall (fun x => 0 <= x) xs -> 0 <= nth i xs 0.
Proof.
  intros H. revert i. induction H as [|x xs Hx _ IH]; intros [|i]; cbn;
    auto; lia.
Qed.

Lemma running_totals_bounds
      (rows : list (nat * Z * string * string)) (i : nat) :
  Forall (fun row => 0 <= row_x row) rows ->
  (i < List.length rows)%nat ->
  let totals := map fst (cumulative_markers (plot_loop rows)) in
  row_x (nth i rows (0%nat, 0, EmptyString, EmptyString)) <= nth i totals 0
  /\ nth (i - 1) totals 0 <= nth i totals 0
  /\ nth i totals 0 <= x_cumsum (plot_loop rows).
Proof.
  intros Hpos Hi. cbn zeta. unfold plot_loop.
  destruct (plot_loop_from rows {| x_cumsum := 0; cumulative_markers := [] |})
    as [Hx Hm].
  cbn zeta in Hx, Hm. rewrite Hx, Hm. cbn [x_cumsum cumulative_markers app].
  rewrite map_map. cbn [fst].
  assert (Hxs : Forall (fun x => 0 <= x) (map row_x rows)).
  { apply Forall_map. exact Hpos. }
  assert (Hnth : forall j, (j < List.length rows)%nat ->
            nth j (map (fun k => 0 + sum (firstn (S k) (map row_x rows)))
                       (seq 0 (List.length rows))) 0
            = sum (firstn (S j) (map row_x rows))).
  { intros j Hj. rewrite nth_map_seq by exact Hj. cbn [Nat.add]. lia. }
  rewrite (Hnth i Hi), (Hnth (i - 1)%nat ltac:(lia)).
  assert (Hrow : row_x (nth i rows (0%nat, 0, EmptyString, EmptyString))
                 = nth i (map row_x rows) 0).
  { change 0 with (row_x (0%nat, 0, EmptyString, EmptyString)) at 2.
    now rewrite map_nth. }
  assert (Hprefix : forall j, 0 <= sum (firstn j (map row_x rows))).
  { induction j as [|j IH]; [cbn; lia|].
    rewrite sum_firstn_succ. pose proof (nth_nonneg _ j Hxs). lia. }
  assert (Hgrow : forall j k, (j <= k)%nat ->
            sum (firstn j (map row_x rows)) <= sum (firstn k (map row_x rows))).
  { intros j k Hjk. induction Hjk as [|k _ IH]; [lia|].
    rewrite sum_firstn_succ. pose proof (nth_nonneg _ k Hxs). lia. }
  repeat split.
  - rewrite Hrow, sum_firstn_succ. pose proof (Hprefix i). lia.
  - apply Hgrow. lia.
  - rewrite <- (firstn_all (map row_x rows)) at 2.
    rewrite length_map. pose proof (Hgrow (S i) (List.length rows) ltac:(lia)).
    lia.
Qed.

(** X6.  With sizes that are not negative the cumulative markers never
    move left and never fall short of the row's own marker: at every
    row [i], the total drawn is at least the size of the row and at
    least the total of the row before, and at most the final total. *)
Theorem cumulative_markers_monotone
        (rows : list (nat * Z * string * string)) (i : nat) :
  Forall (fun row => 0 <= row_x row) rows ->
  (i < List.length rows)%nat ->
  let totals := map fst (cumulative_markers (plot_loop rows)) in
  row_x (nth i rows (0%nat, 0, EmptyString, EmptyString)) <= nth i totals 0
  /\ nth (i - 1) totals 0 <= nth i totals 0
  /\ nth i totals 0 <= x_cumsum (plot_loop rows).
Proof. apply running_totals_bounds. Qed.

Lemma table_sizes_positive :
  Forall (fun row => 1 <= row_x row) (zip4 (arange 15) byte_size colors label).
Proof. vm_compute. repeat constructor; discriminate. Qed.

Lemma cumulative_markers_monotone_witness :
  let rows := zip4 (arange 15) byte_size colors label in
  let totals := map fst (cumulative_markers (plot_loop rows)) in
  row_x (nth 3 rows (0%nat, 0, EmptyString, EmptyString)) <= nth 3 totals 0
  /\ nth (3 - 1) totals 0 <= nth 3 totals 0
  /\ nth 3 totals 0 <= x_cumsum (plot_loop rows).
Proof.
  apply (cumulative_markers_monotone
           (zip4 (arange 15) byte_size colors label) 3).
  - eapply Forall_impl; [|exact table_sizes_positive]. cbn beta. lia.
  - vm_compute. lia.
Defined.

(** X7.  Nothing is drawn off the figure when every size is at least one
    byte and the grand total at most [1E15]: the filled and the open
    marker of every row lie on the dotted guide from 1 to [1E15], hence
    inside the x-limits [(0.1, 1E21)] of the log axis and left of the
    row labels at [2E15].  The sizes of the script are such. *)
Theorem markers_within_limits
        (rows : list (nat * Z * string * string)) (i : nat) :
  Forall (fun row => 1 <= row_x row) rows ->
  x_cumsum (plot_loop rows) <= 10 ^ 15 ->
  (i < List.length rows)%nat ->
  let own := row_x (nth i rows (0%nat, 0, EmptyString, EmptyString)) in
  let total := nth i (map fst (cumulative_markers (plot_loop rows))) 0 in
  (fst guide <= inject_Z own)%Q /\ (inject_Z own <= inject_Z total)%Q
  /\ (inject_Z total <= snd guide)%Q
  /\ within_xlim (inject_Z own) /\ within_xlim (inject_Z total)
  /\ (inject_Z total < label_x)%Q.
Proof.
  intros Hpos Htop Hi. cbn zeta.
  assert (Hnn : Forall (fun row => 0 <= row_x row) rows)
    by (eapply Forall_impl; [|exact Hpos]; cbn beta; lia).
  destruct (running_totals_bounds rows i Hnn Hi) as (Hown & _ & Hlast).
  cbn zeta in Hown, Hlast.
  assert (H1 : 1 <= row_x (nth i rows (0%nat, 0, EmptyString, EmptyString))).
  { rewrite Forall_forall in Hpos. apply Hpos. now apply nth_In. }
  set (own := row_x _) in *. set (total := nth i _ 0) in *.
  assert (Hq : forall a b : Z, a <= b -> (inject_Z a <= inject_Z b)%Q)
    by (intros a b; now rewrite <- Zle_Qle).
  pose proof (Hq _ _ H1) as Q1. pose proof (Hq _ _ Hown) as Q2.
  pose proof (Hq _ _ (Z.le_trans _ _ _ Hlast Htop)) as Q3.
  unfold within_xlim, guide, xlim, label_x. cbn [fst snd].
  assert (E15 : (inject_Z (10 ^ 15) < inject_Z (2 * 10 ^ 15))%Q) by reflexivity.
  assert (E21 : (inject_Z (10 ^ 15) < inject_Z (10 ^ 21))%Q) by reflexivity.
  assert (E01 : (3602879701896397 # 36028797018963968 < inject_Z 1)%Q)
    by reflexivity.
  change 1%Q with (inject_Z 1).
  split; [exact Q1|]. split; [exact Q2|]. split; [exact Q3|].
  split; [split|split; [split|]].
  - exact (Qlt_le_trans _ _ _ E01 Q1).
  - exact (Qle_lt_trans _ _ _ (Qle_trans _ _ _ Q2 Q3) E21).
  - exact (Qlt_le_trans _ _ _ E01 (Qle_trans _ _ _ Q1 Q2)).
  - exact (Qle_lt_trans _ _ _ Q3 E21).
  - exact (Qle_lt_trans _ _ _ Q3 E15).
Qed.

Lemma markers_within_limits_witness :
  let rows := zip4 (arange 15) byte_size colors label in
  let own := row_x (nth 11 rows (0%nat, 0, EmptyString, EmptyString)) in
  let total := nth 11 (map fst (cumulative_markers (plot_loop rows))) 0 in
  (fst guide <= inject_Z own)%Q /\ (inject_Z own <= inject_Z total)%Q
  /\ (inject_Z total <= snd guide)%Q
  /\ within_xlim (inject_Z own) /\ within_xlim (inject_Z total)
  /\ (inject_Z total < label_x)%Q.
Proof.
  apply (markers_within_limits (zip4 (arange 15) byte_size colors label) 11).
  - exact table_sizes_positive.
  - vm_compute. discriminate.
  - vm_compute. lia.
Defined.

End PlotLoopMore.

(** ** [get_aspect] on inverted axes *)

Section HorizonMore.

Import Py CosmologicalHorizon HorizonFigure.
Local Open Scope R_scope.












End HorizonMore.

(** ** [mode] and the curves drawn from it *)

Section ModeMore.

Import Py Float64 HorizonFigure.
Local Open Scope Q_scope.

(** X12.  For every positive float wavelength, subnormal ones and
    [inf] included, [mode] returns a finite float that is not negative:
    it is never [inf] or [nan]. *)
Theorem mode_finite_nonneg (l : spec_float) :
  valid_binary Binary64.prec Binary64.emax l = true ->
  SFltb (Binary64.float 0 0) l = true ->
  Binary64.is_finite (Binary64.mode l) = true
  /\ SFleb (Binary64.float 0 0) (Binary64.mode l) = true.
Proof.
  change Binary64.prec with 53%Z. change Binary64.emax with 1024%Z.
  change (Binary64.float 0 0) with (S754_zero false).
  intros Vl Hl.
  destruct (positive_denote l Vl Hl) as (Ll & Sl & _).
  destruct (mode_agree l Vl Sl) as [Al Wl].
  destruct (mode_finite (denote l) Ll) as (w & Ew & Hw).
  assert (El : feq (value_of (Binary64.mode l)) (Fin w)).
  { eapply feq_trans; [exact Al|]. rewrite <- Ew.
    apply mode_compat, denote_value_of. }
  split.
  - destruct (Binary64.mode l); try reflexivity; contradiction.
  - apply leb_of_le; [reflexivity|exact Wl|].
    eapply le_compat; [apply feq_refl|apply feq_sym, El|exact Hw].
Qed.

Lemma mode_finite_nonneg_witness :
  Binary64.is_finite (Binary64.mode (Binary64.float 1 (-1074))) = true
  /\ SFleb (Binary64.float 0 0) (Binary64.mode (Binary64.float 1 (-1074)))
     = true.
Proof. apply (mode_finite_nonneg (Binary64.float 1 (-1074))); reflexivity. Defined.

(** X13.  The curve of a mode, [mode(l) / scale_factors], computed in
    binary64 for a float wavelength [l > 0]: it is nowhere negative and
    does not rise as the scale factor grows over the positive floats. *)
Theorem momentum_weakly_falling (l a b : spec_float) :
  valid_binary Binary64.prec Binary64.emax l = true ->
  valid_binary Binary64.prec Binary64.emax a = true ->
  valid_binary Binary64.prec Binary64.emax b = true ->
  SFltb (Binary64.float 0 0) l = true ->
  SFltb (Binary64.float 0 0) a = true -> SFleb a b = true ->
  SFleb (Binary64.div (Binary64.mode l) b) (Binary64.div (Binary64.mode l) a)
  = true
  /\ SFleb (Binary64.float 0 0) (Binary64.div (Binary64.mode l) b) = true.
Proof.
  change Binary64.prec with 53%Z. change Binary64.emax with 1024%Z.
  change (Binary64.float 0 0) with (S754_zero false).
  intros Vl Va Vb Hl Ha Hab.
  destruct (positive_denote l Vl Hl) as (Ll & Sl & _).
  destruct (positive_denote a Va Ha) as (La & _ & Na).
  pose proof (le_of_leb a b Va Vb Hab) as Lab.
  assert (Nb : b <> S754_zero true).
  { intros ->. destruct (positive_float a Va Ha) as [->|(m & e & -> & _)];
      cbn in Lab; [discriminate Lab|].
    pose proof (abs_value_pos m e). lra. }
  destruct (mode_agree l Vl Sl) as [Al Wl].
  destruct (mode_finite (denote l) Ll) as (w & Ew & Hw).
  assert (El : feq (value_of (Binary64.mode l)) (Fin w)).
  { eapply feq_trans; [exact Al|]. rewrite <- Ew.
    apply mode_compat, denote_value_of. }
  unfold Binary64.div.
  change Binary64.prec with 53%Z. change Binary64.emax with 1024%Z.
  destruct (div_agree (Binary64.mode l) a Na) as [Da Xa].
  destruct (div_agree (Binary64.mode l) b Nb) as [Db Xb].
  destruct (div_antitone w (pow2 (-1074)) (denote a) (denote b) Hw
              (pow2_pos _) La Lab) as [Hfall H0].
  assert (Ea : feq (value_of (SFdiv 53 1024 (Binary64.mode l) a))
                   (div (Fin w) (denote a))).
  { eapply feq_trans; [exact Da|].
    apply div_compat; [exact El|apply denote_value_of]. }
  assert (Eb : feq (value_of (SFdiv 53 1024 (Binary64.mode l) b))
                   (div (Fin w) (denote b))).
  { eapply feq_trans; [exact Db|].
    apply div_compat; [exact El|apply denote_value_of]. }
  split; apply leb_of_le; try assumption; try reflexivity.
  - eapply le_compat; [apply feq_sym, Eb|apply feq_sym, Ea|exact Hfall].
  - eapply le_compat; [apply feq_refl|apply feq_sym, Eb|exact H0].
Qed.

Lemma momentum_weakly_falling_witness :
  SFleb (Binary64.div (Binary64.mode (Binary64.float 1 0)) (Binary64.float 1 0))
        (Binary64.div (Binary64.mode (Binary64.float 1 0))
                      (Binary64.float 1 (-2))) = true
  /\ SFleb (Binary64.float 0 0)
           (Binary64.div (Binary64.mode (Binary64.float 1 0))
                         (Binary64.float 1 0)) = true.
Proof.
  apply (momentum_weakly_falling (Binary64.float 1 0) (Binary64.float 1 (-2))
           (Binary64.float 1 0)); reflexivity.
Defined.

(** X17.  On the four wavelengths the script plots (1, 100, 1000 and
    30000 Mpc) the modes computed in binary64 are positive and strictly
    falling: rounding does not merge or swap the curves of the figure. *)
Theorem plotted_modes_strictly_falling :
  strictly_falling binary64_modes = true.
Proof. vm_compute. reflexivity. Qed.

End ModeMore.

(** ** The run of cosmological_parameters.py *)

Section ParametersRun.

Import Py Script Scripts.
Local Open Scope string_scope.

(** X16.  Whatever style sheets are at hand, [cosmological_parameters.py]
    ends normally with its one file written, and the notice of a missing
    sheet is printed, once, exactly when [mnras.mplstyle] cannot be
    loaded. *)
Theorem parameters_notice_iff_sheet_missing (env : environment) :
  let o := run env cosmological_parameters in
  exit_status o = Normal
  /\ written o = ["cosmological_parameters.pdf"]
  /\ (printed o = [] <-> mem mnras (style_sheets env) = true)
  /\ (printed o = [notice] <-> mem mnras (style_sheets env) = false).
Proof.
  cbn zeta. rewrite run_cosmological_parameters.
  cbn [exit_status written printed].
  destruct (mem mnras (style_sheets env)); repeat split;
    intros; try reflexivity; discriminate.
Qed.

End ParametersRun.
